(** * decode.py: demosaicing, white balance and gamma correction

    A shallow embedding of the three numeric stages of [decode.py]
    ([demosaic], [white_balance], [gamma_correction]) together with the
    numpy / scipy primitives they call, and the properties of the stages.

    Conventions of the embedding:
    - a numpy [float64] is an [f64]: a real number, or one of the special
      values [+inf], [-inf], [nan].  Finite arithmetic is exact (rounding and
      overflow are not modelled), the special values follow IEEE 754 as
      numpy applies it;
    - there is one zero, [Fin 0], for the two zeros of float64.  Where the
      result of numpy depends on the sign of a zero (the sign of [1 / 0],
      and of a negative power of 0) the definitions give the result for
      [+0.0], and the theorems state only what holds for both signs;
    - where a property depends on the range or the rounding of float64, the
      power of the C library is a parameter ([np_power_with]);
    - a 2-D array is a list of rows, a 3-D array a list of rows of pixels,
      each pixel the list of its channels;
    - a Python call returns a [result]: a value, or the exception raised;
    - writes to disk and logging are not part of the model. *)

From Stdlib Require Import List ZArith Reals Lia Lra Bool.
From Stdlib Require Ascii String.
Import ListNotations.

Set Implicit Arguments.

(** ** Exceptions *)

Inductive exn : Type :=
| ValueError   (* operands could not be broadcast together *)
| IndexError.  (* index is out of bounds for axis *)

Inductive result (A : Type) : Type :=
| Ok (a : A)
| Raise (e : exn).

Arguments Ok {A} a.
Arguments Raise {A} e.

Definition bind {A B : Type} (m : result A) (k : A -> result B) : result B :=
  match m with
  | Ok a => k a
  | Raise e => Raise e
  end.

Notation "x <- m ;; k" := (bind m (fun x => k))
  (at level 61, m at next level, right associativity).

Definition raises {A : Type} (m : result A) : Prop := exists e, m = Raise e.

(** ** float64 scalars *)

Inductive f64 : Type :=
| Fin (x : R)
| PInf
| NInf
| NaN.

Definition is_finite (x : f64) : Prop :=
  match x with Fin _ => True | _ => False end.

(** [within lo hi x]: [x] is a number with [lo <= x <= hi]. *)
Definition within (lo hi : R) (x : f64) : Prop :=
  match x with Fin a => (lo <= a <= hi)%R | _ => False end.

(** An infinity with the sign of [s]; [nan] when there is no sign to take. *)
Definition signed_inf (s : R) : f64 :=
  if Rlt_dec 0 s then PInf else if Rlt_dec s 0 then NInf else NaN.

Definition of_int (z : Z) : f64 := Fin (IZR z).

Definition fadd (x y : f64) : f64 :=
  match x, y with
  | NaN, _ | _, NaN => NaN
  | Fin a, Fin b => Fin (a + b)
  | PInf, NInf | NInf, PInf => NaN
  | PInf, _ | _, PInf => PInf
  | NInf, _ | _, NInf => NInf
  end.

Definition fmul (x y : f64) : f64 :=
  match x, y with
  | NaN, _ | _, NaN => NaN
  | Fin a, Fin b => Fin (a * b)
  | PInf, Fin b | Fin b, PInf => signed_inf b
  | NInf, Fin b | Fin b, NInf => signed_inf (- b)
  | PInf, PInf | NInf, NInf => PInf
  | PInf, NInf | NInf, PInf => NInf
  end.

(** numpy scalar and array division: a zero divisor gives an infinity (or
    [nan] for [0/0]) and a RuntimeWarning, never an exception.  The infinity
    has the sign of the dividend for the divisor [+0.0], which is the one
    [Fin 0] stands for here, and the opposite sign for [-0.0]. *)
Definition fdiv (x y : f64) : f64 :=
  match x, y with
  | NaN, _ | _, NaN => NaN
  | Fin a, Fin b => if Req_dec_T b 0 then signed_inf a else Fin (a / b)
  | Fin _, _ => Fin 0
  | PInf, Fin b => if Rlt_dec b 0 then NInf else PInf
  | NInf, Fin b => if Rlt_dec b 0 then PInf else NInf
  | _, _ => NaN
  end.

(** [np.maximum] and [np.minimum]: a [nan] operand gives [nan]. *)
Definition fmax (x y : f64) : f64 :=
  match x, y with
  | NaN, _ | _, NaN => NaN
  | PInf, _ | _, PInf => PInf
  | NInf, z | z, NInf => z
  | Fin a, Fin b => Fin (Rmax a b)
  end.

Definition fmin (x y : f64) : f64 :=
  match x, y with
  | NaN, _ | _, NaN => NaN
  | NInf, _ | _, NInf => NInf
  | PInf, z | z, PInf => z
  | Fin a, Fin b => Fin (Rmin a b)
  end.

(** [np.clip(x, lo, hi)] is [minimum(maximum(x, lo), hi)]. *)
Definition np_clip (x lo hi : f64) : f64 := fmin (fmax x lo) hi.

(** Whether the real [y] is an integer, and its parity when it is. *)
Definition is_integer (y : R) : bool :=
  if Req_dec_T (IZR (Int_part y)) y then true else false.

Definition is_odd_integer (y : R) : bool :=
  is_integer y && Z.odd (Int_part y).

(** [np.power(x, y)] for a finite exponent [y], after C's [pow]:
    anything to the power 0 is 1; a positive base gives [exp (y * ln x)];
    a zero base gives 0 for [y > 0] and [+inf] for [y < 0] (for [-0.0] and
    an odd negative integer [y], C's [pow] gives [-inf]: the sign of zero is
    not represented); a negative base has a power only for an integer
    exponent. *)
Definition np_power (x : f64) (y : R) : f64 :=
  if Req_dec_T y 0 then Fin 1 else
  match x with
  | NaN => NaN
  | Fin a =>
      if Rlt_dec 0 a then Fin (Rpower a y)
      else if Req_dec_T a 0 then (if Rlt_dec 0 y then Fin 0 else PInf)
      else if is_integer y
           then (if is_odd_integer y then Fin (- Rpower (- a) y)
                 else Fin (Rpower (- a) y))
           else NaN
  | PInf => if Rlt_dec 0 y then PInf else Fin 0
  | NInf =>
      if Rlt_dec 0 y then (if is_odd_integer y then NInf else PInf)
      else Fin 0
  end.

(** ** Arrays *)

Definition tabulate {A : Type} (n : nat) (f : nat -> A) : list A :=
  map f (seq 0 n).

Definition tabulate2 {A : Type} (h w : nat) (f : nat -> nat -> A) : list (list A) :=
  tabulate h (fun i => tabulate w (fun j => f i j)).

(** [a.shape] of a 2-D array. *)
Definition shape {A : Type} (a : list (list A)) : nat * nat :=
  (length a, length (hd [] a)).

Definition has_shape {A : Type} (h w : nat) (a : list (list A)) : Prop :=
  length a = h /\ Forall (fun row => length row = w) a.

Definition has_shape3 {A : Type} (h w c : nat) (a : list (list (list A))) : Prop :=
  length a = h /\ Forall (has_shape w c) a.

(** Unchecked reads, used where the index is known to be in range. *)
Definition get2 {A : Type} (d : A) (a : list (list A)) (i j : nat) : A :=
  nth j (nth i a []) d.

Definition get3 {A : Type} (d : A) (a : list (list (list A))) (i j k : nat) : A :=
  nth k (nth j (nth i a []) []) d.

(** [numpy.matlib.repmat(a, m, n)]: [a] tiled [m] times down and [n] times
    across. *)
Definition repmat {A : Type} (a : list (list A)) (m n : nat) : list (list A) :=
  concat (repeat (map (fun row => concat (repeat row n)) a) m).

(** *** Broadcasting *)

(** The length two axes broadcast to: equal lengths, or one of them 1. *)
Definition bdim (a b : nat) : result nat :=
  if (a =? b)%nat then Ok a
  else if (a =? 1)%nat then Ok b
  else if (b =? 1)%nat then Ok a
  else Raise ValueError.

(** Reading a broadcast axis: an axis of length 1 is read at 0. *)
Definition bidx {A : Type} (l : list A) (i : nat) : nat :=
  if (length l =? 1)%nat then 0%nat else i.

Definition bget2 (a : list (list f64)) (i j : nat) : f64 :=
  let row := nth (bidx a i) a [] in
  nth (bidx row j) row (Fin 0).

(** [a * b] on 2-D arrays. *)
Definition np_mul2 (a b : list (list f64)) : result (list (list f64)) :=
  let '(ha, wa) := shape a in
  let '(hb, wb) := shape b in
  h <- bdim ha hb ;;
  w <- bdim wa wb ;;
  Ok (tabulate2 h w (fun i j => fmul (bget2 a i j) (bget2 b i j))).

(** ** The Bayer masks of [demosaic] *)

Definition red_filter : list (list Z) := [[1; 0]; [0; 0]]%Z.
Definition green_filter : list (list Z) := [[0; 1]; [1; 0]]%Z.
Definition blue_filter : list (list Z) := [[0; 0]; [0; 1]]%Z.

Definition red_mask (height width : nat) : list (list Z) :=
  repmat red_filter (height / 2) (width / 2).
Definition green_mask (height width : nat) : list (list Z) :=
  repmat green_filter (height / 2) (width / 2).
Definition blue_mask (height width : nat) : list (list Z) :=
  repmat blue_filter (height / 2) (width / 2).

(** The number of masks that are nonzero at a pixel position. *)
Definition nonzero (m : list (list Z)) (i j : nat) : bool :=
  negb (get2 0%Z m i j =? 0)%Z.

Definition count_nonzero (height width i j : nat) : nat :=
  (if nonzero (red_mask height width) i j then 1 else 0) +
  (if nonzero (green_mask height width) i j then 1 else 0) +
  (if nonzero (blue_mask height width) i j then 1 else 0).

(** ** The interpolation step of [demosaic] *)

(** [scipy.ndimage.convolve] extends its input by reflection about the edge
    of the last pixel (mode ['reflect'], its default): index [-1] reads
    index [0], index [n] reads index [n - 1], with period [2 n]. *)
Definition reflect (n : nat) (i : Z) : nat :=
  let p := (2 * Z.of_nat n)%Z in
  let m := (i mod p)%Z in
  Z.to_nat (if (m <? Z.of_nat n)%Z then m else (p - 1 - m)%Z).

Definition fsum (l : list f64) : f64 := fold_left fadd l (Fin 0).

(** [scipy.ndimage.convolve(input, weights)] for a kernel of odd sides,
    centred: the output has the shape of the input, and
    [out[i, j] = sum_(a, b) weights[a, b] * input[i + kh/2 - a, j + kw/2 - b]]
    over the reflected input.  Every weight takes part in the sum, the zero
    ones too; scipy leaves the zero weights out, which gives the same sum
    wherever the input under them is a number (they add 0), and differs only
    where it is an infinity or [nan]. *)
Definition convolve (input weights : list (list f64)) : list (list f64) :=
  let '(h, w) := shape input in
  let '(kh, kw) := shape weights in
  tabulate2 h w (fun i j =>
    fsum (flat_map (fun a =>
            map (fun b =>
                   fmul (get2 (Fin 0) weights a b)
                        (get2 (Fin 0) input
                           (reflect h (Z.of_nat i + Z.of_nat (kh / 2) - Z.of_nat a))
                           (reflect w (Z.of_nat j + Z.of_nat (kw / 2) - Z.of_nat b))))
                (seq 0 kw))
            (seq 0 kh))).

(** [np.array(k) / 4] *)
Definition over4 (k : list (list Z)) : list (list f64) :=
  map (map (fun z => fdiv (of_int z) (of_int 4))) k.

Definition red_blue_interpolation : list (list f64) :=
  over4 [[1; 2; 1]; [2; 4; 2]; [1; 2; 1]]%Z.

Definition green_interpolation : list (list f64) :=
  over4 [[0; 1; 0]; [1; 4; 1]; [0; 1; 0]]%Z.

(** [np.zeros((h, w, c))] *)
Definition zeros3 (h w c : nat) : list (list (list f64)) :=
  repeat (repeat (repeat (Fin 0) c) w) h.

Fixpoint set_nth {A : Type} (k : nat) (v : A) (l : list A) : list A :=
  match l, k with
  | [], _ => []
  | _ :: t, O => v :: t
  | x :: t, S k' => x :: set_nth k' v t
  end.

(** [dst[:, :, k] = src], for [k] below the number of channels: [src] must
    broadcast to the first two axes of [dst]. *)
Definition set_channel (k : nat) (src : list (list f64))
    (dst : list (list (list f64))) : result (list (list (list f64))) :=
  let '(h, w) := shape dst in
  let '(hs, ws) := shape src in
  if ((hs =? h)%nat || (hs =? 1)%nat) && ((ws =? w)%nat || (ws =? 1)%nat)
  then Ok (tabulate2 h w (fun i j => set_nth k (bget2 src i j) (get2 [] dst i j)))
  else Raise ValueError.

Definition as_float (mask : list (list Z)) : list (list f64) :=
  map (map of_int) mask.

(** The loop that saves each masked channel for visualisation: the image it
    builds is only written to disk, what remains here is whether building it
    raises. *)
Fixpoint save_channels (image : list (list f64)) (height width i : nat)
    (color_filters : list (list (list Z))) : result unit :=
  match color_filters with
  | [] => Ok tt
  | filter :: rest =>
      masked <- np_mul2 image (as_float filter) ;;
      _ <- set_channel i masked (zeros3 height width 3) ;;
      save_channels image height width (S i) rest
  end.

Definition demosaic (image : list (list f64)) : result (list (list (list f64))) :=
  let '(height, width) := shape image in
  let red := red_mask height width in
  let green := green_mask height width in
  let blue := blue_mask height width in
  _ <- save_channels image height width 0 [red; green; blue] ;;
  let demosaiced := zeros3 height width 3 in
  r <- np_mul2 image (as_float red) ;;
  demosaiced <- set_channel 0 (convolve r red_blue_interpolation) demosaiced ;;
  g <- np_mul2 image (as_float green) ;;
  demosaiced <- set_channel 1 (convolve g green_interpolation) demosaiced ;;
  b <- np_mul2 image (as_float blue) ;;
  demosaiced <- set_channel 2 (convolve b red_blue_interpolation) demosaiced ;;
  Ok demosaiced.

(** ** White balance *)

(** The two kinds of reference [white_balance] tests for: a list of gains,
    or a tuple holding a pixel coordinate (two integers).  A reference of
    any other type leaves [reference] unbound in the source; the type has no
    such value. *)
Inductive white_reference : Type :=
| RefList (gains : list f64)
| RefTuple (row col : Z).

(** [l[i]] for a Python integer index: a negative index counts from the
    end, an index outside [-len, len) raises IndexError. *)
Definition py_index {A : Type} (l : list A) (i : Z) : result A :=
  let n := Z.of_nat (length l) in
  let k := if (i <? 0)%Z then (i + n)%Z else i in
  if ((0 <=? k)%Z && (k <? n)%Z)
  then match nth_error l (Z.to_nat k) with
       | Some x => Ok x
       | None => Raise IndexError
       end
  else Raise IndexError.

(** [image[r, c, k]] *)
Definition getitem3 (image : list (list (list f64))) (r c k : Z) : result f64 :=
  row <- py_index image r ;;
  px <- py_index row c ;;
  py_index px k.

(** The gains the two branches of [white_balance] bind to [reference]. *)
Definition reference_of (image : list (list (list f64)))
    (ref : white_reference) : result (list f64) :=
  match ref with
  | RefList gains => Ok gains
  | RefTuple row col =>
      v0 <- getitem3 image row col 0 ;;
      v1 <- getitem3 image row col 1 ;;
      v2 <- getitem3 image row col 2 ;;
      Ok [fdiv (Fin 1) v0; fdiv (Fin 1) v1; fdiv (Fin 1) v2]
  end.

Fixpoint mapM {A B : Type} (f : A -> result B) (l : list A) : result (list B) :=
  match l with
  | [] => Ok []
  | x :: t => y <- f x ;; ys <- mapM f t ;; Ok (y :: ys)
  end.

(** One pixel of [image * reference]: the channel axis broadcasts against
    the 1-D array of gains. *)
Definition mul_pixel (reference px : list f64) : result (list f64) :=
  n <- bdim (length px) (length reference) ;;
  Ok (tabulate n (fun k =>
        fmul (nth (bidx px k) px (Fin 0))
             (nth (bidx reference k) reference (Fin 0)))).

Definition np_mul3 (image : list (list (list f64))) (reference : list f64)
  : result (list (list (list f64))) :=
  mapM (mapM (mul_pixel reference)) image.

Definition map3 {A B : Type} (f : A -> B) (a : list (list (list A)))
  : list (list (list B)) :=
  map (map (map f)) a.

Definition white_balance (image : list (list (list f64)))
    (ref : white_reference) : result (list (list (list f64))) :=
  reference <- reference_of image ref ;;
  scaled <- np_mul3 image reference ;;
  Ok (map3 (fun x => np_clip x (Fin 0) (Fin 1)) scaled).

(** ** Gamma correction *)

Definition gamma_correction (image : list (list (list f64))) (gamma : R)
  : result (list (list (list f64))) :=
  Ok (map3 (fun x => np_power x gamma) image).

(** ** Gamma correction in float64

    [np_power] takes the power of a positive base as the real number it is.
    [np.power] computes it in float64 with the C library's [pow], which is
    not part of the repository: the result is rounded, a result below the
    range of float64 becomes 0 and one above it [+inf].  [np_power_with pw]
    is [np_power] with [pw] for the power of a positive base, and
    [gamma_correction_with pw] the stage on top of it. *)
Definition np_power_with (pw : R -> R -> f64) (x : f64) (y : R) : f64 :=
  if Req_dec_T y 0 then Fin 1 else
  match x with
  | NaN => NaN
  | Fin a =>
      if Rlt_dec 0 a then pw a y
      else if Req_dec_T a 0 then (if Rlt_dec 0 y then Fin 0 else PInf)
      else if is_integer y
           then (if is_odd_integer y then fmul (Fin (-1)) (pw (- a)%R y)
                 else pw (- a)%R y)
           else NaN
  | PInf => if Rlt_dec 0 y then PInf else Fin 0
  | NInf =>
      if Rlt_dec 0 y then (if is_odd_integer y then NInf else PInf)
      else Fin 0
  end.


(** The least positive normal number of float64 and its largest number. *)
Definition f64_min_normal : R := / 2 ^ 1022.
Definition f64_max : R := (2 - / 2 ^ 52) * 2 ^ 1023.

Definition in_normal_range (v : R) : Prop :=
  (f64_min_normal <= v <= f64_max)%R.





(** ** The three stages in sequence, as [decode] runs them on the rescaled
    sensor array *)

Definition decode (rescaled : list (list f64)) (ref : white_reference)
    (gamma : R) : result (list (list (list f64))) :=
  demosaiced <- demosaic rescaled ;;
  while_balanced <- white_balance demosaiced ref ;;
  gamma_correction while_balanced gamma.

(** ** Predicates of the statements *)

Definition all3 {A : Type} (P : A -> Prop) (a : list (list (list A))) : Prop :=
  Forall (Forall (Forall P)) a.

Definition all2 {A : Type} (P : A -> Prop) (a : list (list A)) : Prop :=
  Forall (Forall P) a.

(** [image * mask] where the two have the same shape [h x w]. *)
Definition masked (h w : nat) (image : list (list f64)) (mask : list (list Z))
  : list (list f64) :=
  tabulate2 h w (fun i j => fmul (get2 (Fin 0) image i j) (of_int (get2 0%Z mask i j))).

(** A pixel of three channels times three gains, and the image
    [white_balance] returns once [reference] holds three gains. *)
Definition scaled_pixel (reference px : list f64) : list f64 :=
  tabulate 3 (fun k => fmul (nth k px (Fin 0)) (nth k reference (Fin 0))).

Definition balanced (reference : list f64) (image : list (list (list f64)))
  : list (list (list f64)) :=
  map3 (fun x => np_clip x (Fin 0) (Fin 1)) (map (map (scaled_pixel reference)) image).


(** The three channels [demosaic] interpolates, before they are stacked. *)
Definition interpolated (h w : nat) (image : list (list f64)) (k : nat)
  : list (list f64) :=
  match k with
  | 0 => convolve (masked h w image (red_mask h w)) red_blue_interpolation
  | 1 => convolve (masked h w image (green_mask h w)) green_interpolation
  | _ => convolve (masked h w image (blue_mask h w)) red_blue_interpolation
  end.

(** The three interpolated channels stacked into an image. *)
Definition stacked (h w : nat) (image : list (list f64)) : list (list (list f64)) :=
  tabulate2 h w (fun i j =>
    [get2 (Fin 0) (interpolated h w image 0) i j;
     get2 (Fin 0) (interpolated h w image 1) i j;
     get2 (Fin 0) (interpolated h w image 2) i j]).

(** The 4 x 4 sensor array with every sample 0.5. *)
Definition half : f64 := Fin (1 / 2).
Definition sensor4 : list (list f64) := repeat (repeat half 4) 4.

(** ** Further definitions for the properties of the stages *)

(** The number a sensor array holds at a position (0 where it holds none). *)
Definition sample (image : list (list f64)) (i j : nat) : R :=
  match get2 (Fin 0) image i j with Fin x => x | _ => 0%R end.

(** The mask of channel [k]: 0 red, 1 green, 2 blue. *)
Definition mask_of (k height width : nat) : list (list Z) :=
  match k with
  | 0 => red_mask height width
  | 1 => green_mask height width
  | _ => blue_mask height width
  end.

(** Bilinear interpolation over the Bayer pattern, for samples [s]: at pixel
    [(i, j)] channel [k] is the sample itself where the sensor measured
    that colour there, and otherwise the mean of the nearest samples of
    that colour: the two beside or above and below, or the four around. *)
Definition bilinear (s : nat -> nat -> R) (i j k : nat) : R :=
  let up := i - 1 in
  let down := i + 1 in
  let left := j - 1 in
  let right := j + 1 in
  let here := s i j in
  let cross := ((s up j + s down j + s i left + s i right) / 4)%R in
  let diag := ((s up left + s up right + s down left + s down right) / 4)%R in
  let beside := ((s i left + s i right) / 2)%R in
  let above_below := ((s up j + s down j) / 2)%R in
  match i mod 2, j mod 2, k with
  | 0, 0, 0 => here
  | 0, 0, 1 => cross
  | 0, 0, _ => diag
  | 0, _, 0 => beside
  | 0, _, 1 => here
  | 0, _, _ => above_below
  | _, 0, 0 => above_below
  | _, 0, 1 => here
  | _, 0, _ => beside
  | _, _, 0 => diag
  | _, _, 1 => cross
  | _, _, _ => here
  end.

(** ** The start of [decode]: rescaling the raw frame *)

(** The samples of the raw frame are unsigned 16-bit integers; their
    differences are taken in that type, modulo 2^16. *)
Definition u16 (z : Z) : Z := (z mod 65536)%Z.

(** [a.min()] and [a.max()]: ValueError on an array without elements. *)
Definition np_min (a : list (list Z)) : result Z :=
  match concat a with
  | [] => Raise ValueError
  | x :: t => Ok (fold_left Z.min t x)
  end.

Definition np_max (a : list (list Z)) : result Z :=
  match concat a with
  | [] => Raise ValueError
  | x :: t => Ok (fold_left Z.max t x)
  end.

(** [(raw - raw.min()) / (raw.max() - raw.min())]: the differences are
    integers, the quotient is a float64 array; a zero divisor gives [nan] or
    an infinity and a warning, as all numpy divisions do. *)
Definition rescale (raw : list (list Z)) : result (list (list f64)) :=
  lo <- np_min raw ;;
  hi <- np_max raw ;;
  Ok (map (map (fun x => fdiv (of_int (u16 (x - lo))) (of_int (u16 (hi - lo))))) raw).

(** [decode] from the raw frame on: the rescaling, then the three stages. *)
Definition decode_raw (raw : list (list Z)) (ref : white_reference) (gamma : R)
  : result (list (list (list f64))) :=
  rescaled <- rescale raw ;;
  decode rescaled ref gamma.

(** The default [white_reference] of [decode]. *)
Definition default_white_reference : white_reference := RefTuple 1200 230.

(** ** The gamma argument of the command line

    [gamma = args.gamma.split("/")] and then
    [float(gamma[0]) / float(gamma[1])].  [float] is Python's parser of
    float literals; the model takes it as a parameter, [None] standing for
    the ValueError it raises.  The division is that of Python floats, which
    raises ZeroDivisionError on a zero divisor. *)
Module Cli.
Import Ascii String.

Inductive py_exn : Type :=
| Exn (e : exn)
| ZeroDivisionError.

Inductive py_result (A : Type) : Type :=
| Return (a : A)
| Throw (e : py_exn).

Arguments Return {A} a.
Arguments Throw {A} e.

Definition py_bind {A B : Type} (m : py_result A) (k : A -> py_result B)
  : py_result B :=
  match m with
  | Return a => k a
  | Throw e => Throw e
  end.

(** [s.split(sep)] for a separator of one character. *)
Fixpoint split (sep : ascii) (s : string) : list string :=
  match s with
  | EmptyString => [EmptyString]
  | String c rest =>
      if Ascii.eqb c sep then EmptyString :: split sep rest
      else match split sep rest with
           | [] => [String c EmptyString]
           | part :: parts => String c part :: parts
           end
  end.

(** Whether [s] holds no [sep]. *)
Fixpoint free (sep : ascii) (s : string) : bool :=
  match s with
  | EmptyString => true
  | String c rest => negb (Ascii.eqb c sep) && free sep rest
  end.

(** [l[i]] for a non-negative [i]. *)
Definition item (l : list string) (i : nat) : py_result string :=
  match nth_error l i with
  | Some x => Return x
  | None => Throw (Exn IndexError)
  end.

(** [a / b] on Python floats. *)
Definition py_div (a b : f64) : py_result f64 :=
  match b with
  | Fin y => if Req_dec_T y 0 then Throw ZeroDivisionError else Return (fdiv a b)
  | _ => Return (fdiv a b)
  end.

Section Gamma.
Variable float : string -> option f64.

Definition py_float (s : string) : py_result f64 :=
  match float s with
  | Some x => Return x
  | None => Throw (Exn ValueError)
  end.

Definition parse_gamma (text : string) : py_result f64 :=
  let gamma := split "/" text in
  py_bind (item gamma 0) (fun g0 =>
  py_bind (py_float g0) (fun a =>
  py_bind (item gamma 1) (fun g1 =>
  py_bind (py_float g1) (fun b =>
  py_div a b)))).
End Gamma.
End Cli.

(** * Properties *)

(** ** Lists and tiling *)

Lemma length_tabulate (B : Type) (n : nat) (f : nat -> B) :
    length (tabulate n f) = n.
  Proof. unfold tabulate. now rewrite length_map, length_seq. Qed.

Lemma nth_tabulate (B : Type) (n : nat) (f : nat -> B) (i : nat) (d : B) :
    i < n -> nth i (tabulate n f) d = f i.
  Proof.
    intros Hi. unfold tabulate.
    rewrite (nth_indep _ d (f 0)) by now rewrite length_map, length_seq.
    rewrite map_nth, seq_nth; auto.
  Qed.

Lemma length_concat_repeat (A : Type) (l : list A) (m : nat) :
    length (concat (repeat l m)) = m * length l.
  Proof.
    induction m as [|m IH]; simpl; [reflexivity|].
    now rewrite length_app, IH.
  Qed.

Lemma nth_concat_repeat (A : Type) (l : list A) (m i : nat) (d : A) :
    i < m * length l ->
    nth i (concat (repeat l m)) d = nth (i mod length l) l d.
  Proof.
    revert i. induction m as [|m IH]; intros i Hi; simpl in *; [lia|].
    destruct (Nat.lt_ge_cases i (length l)) as [Hlt|Hge].
    - rewrite app_nth1 by assumption. now rewrite Nat.mod_small.
    - rewrite app_nth2 by assumption. rewrite IH by lia.
      f_equal.
      replace i with ((i - length l) + 1 * length l) at 2 by lia.
      now rewrite Nat.Div0.mod_add.
  Qed.

Lemma repmat_shape (A : Type) (a : list (list A)) (h w m n : nat) :
    has_shape h w a -> has_shape (m * h) (n * w) (repmat a m n).
  Proof.
    intros [Hh Hw]. unfold repmat. split.
    - now rewrite length_concat_repeat, length_map, Hh.
    - apply Forall_concat, Forall_forall.
      intros rows Hin. apply repeat_spec in Hin. subst rows.
      apply Forall_map. eapply Forall_impl; [|exact Hw].
      intros row Hrow. simpl. now rewrite length_concat_repeat, Hrow.
  Qed.

Lemma get2_repmat (A : Type) (a : list (list A)) (h w m n i j : nat) (d : A) :
    has_shape h w a -> i < m * h -> j < n * w ->
    get2 d (repmat a m n) i j = get2 d a (i mod h) (j mod w).
  Proof.
    intros [Hh Hw] Hi Hj. unfold get2, repmat.
    assert (0 < h) by (destruct h; lia).
    rewrite nth_concat_repeat by now rewrite length_map, Hh.
    rewrite length_map, Hh.
    assert (Hm : i mod h < length a) by (rewrite Hh; now apply Nat.mod_upper_bound; lia).
    rewrite (nth_indep _ [] (concat (repeat [] n))) by now rewrite length_map.
    rewrite (map_nth (fun row => concat (repeat row n))).
    assert (Hlen : length (nth (i mod h) a []) = w).
    { rewrite Forall_forall in Hw. apply Hw, nth_In, Hm. }
    rewrite nth_concat_repeat by now rewrite Hlen.
    now rewrite Hlen.
  Qed.
Lemma even_halves (n : nat) : Nat.even n = true -> 2 * (n / 2) = n.
Proof.
  intros He. apply Nat.even_spec in He. destruct He as [k ->].
  rewrite (Nat.mul_comm 2 k), Nat.div_mul by lia. lia.
Qed.

Lemma filter_shapes :
  has_shape 2 2 red_filter /\ has_shape 2 2 green_filter /\ has_shape 2 2 blue_filter.
Proof. repeat split; repeat constructor. Qed.

Lemma mask_shapes (H W : nat) :
  Nat.even H = true -> Nat.even W = true ->
  has_shape H W (red_mask H W) /\ has_shape H W (green_mask H W) /\
  has_shape H W (blue_mask H W).
Proof.
  intros HH HW. destruct filter_shapes as (Hr & Hg & Hb).
  assert (E : forall u : list (list Z),
             has_shape 2 2 u -> has_shape H W (repmat u (H / 2) (W / 2))).
  { intros u Hu. pose proof (@repmat_shape _ u 2 2 (H / 2) (W / 2) Hu) as S.
    rewrite !(Nat.mul_comm _ 2), (even_halves H HH), (even_halves W HW) in S.
    exact S. }
  split; [|split]; apply E; assumption.
Qed.

Lemma mask_at (unit : list (list Z)) (H W i j : nat) :
  has_shape 2 2 unit ->
  Nat.even H = true -> Nat.even W = true -> i < H -> j < W ->
  get2 0%Z (repmat unit (H / 2) (W / 2)) i j = get2 0%Z unit (i mod 2) (j mod 2).
Proof.
  intros Hu HH HW Hi Hj.
  apply get2_repmat; trivial.
  - pose proof (even_halves H HH). lia.
  - pose proof (even_halves W HW). lia.
Qed.

(** C1: for even [H] and [W] the three masks have shape [H x W], no pixel
    position is nonzero in two of them, and every pixel position is nonzero
    in exactly one. *)
Theorem masks_partition (H W : nat) :
  Nat.even H = true -> Nat.even W = true ->
  (has_shape H W (red_mask H W) /\ has_shape H W (green_mask H W) /\
   has_shape H W (blue_mask H W)) /\
  forall i j, i < H -> j < W ->
    (nonzero (red_mask H W) i j && nonzero (green_mask H W) i j = false) /\
    (nonzero (red_mask H W) i j && nonzero (blue_mask H W) i j = false) /\
    (nonzero (green_mask H W) i j && nonzero (blue_mask H W) i j = false) /\
    count_nonzero H W i j = 1.
Proof.
  intros HH HW. split; [now apply mask_shapes|].
  intros i j Hi Hj. destruct filter_shapes as (Hr & Hg & Hb).
  unfold count_nonzero, nonzero, red_mask, green_mask, blue_mask.
  rewrite !mask_at by assumption.
  pose proof (Nat.mod_upper_bound i 2 ltac:(lia)) as Bi.
  pose proof (Nat.mod_upper_bound j 2 ltac:(lia)) as Bj.
  destruct (i mod 2) as [|[|?]]; [| |lia];
    (destruct (j mod 2) as [|[|?]]; [| |lia]); repeat split; reflexivity.
Qed.

Lemma masks_partition_witness :
  count_nonzero 4 6 3 5 = 1.
Proof.
  apply (masks_partition 4 6); [reflexivity | reflexivity | lia | lia].
Defined.

(** ** Shapes and reads of tabulated arrays *)

Lemma tabulate2_shape (A : Type) (h w : nat) (f : nat -> nat -> A) :
  has_shape h w (tabulate2 h w f).
Proof.
  split; [apply length_tabulate|].
  unfold tabulate2, tabulate. apply Forall_map, Forall_forall.
  intros i _. now rewrite length_map, length_seq.
Qed.

Lemma get2_tabulate2 (A : Type) (h w : nat) (f : nat -> nat -> A) (i j : nat) (d : A) :
  i < h -> j < w -> get2 d (tabulate2 h w f) i j = f i j.
Proof.
  intros Hi Hj. unfold get2, tabulate2.
  rewrite nth_tabulate by assumption. now apply nth_tabulate.
Qed.

Lemma tabulate2_ext (A : Type) (h w : nat) (f g : nat -> nat -> A) :
  (forall i j, i < h -> j < w -> f i j = g i j) ->
  tabulate2 h w f = tabulate2 h w g.
Proof.
  intros E. unfold tabulate2, tabulate.
  apply map_ext_in. intros i Hi. apply in_seq in Hi.
  apply map_ext_in. intros j Hj. apply in_seq in Hj.
  apply E; lia.
Qed.

Lemma shape_cases (A : Type) (h w : nat) (a : list (list A)) :
  has_shape h w a -> shape a = (h, w) \/ (h = 0 /\ a = []).
Proof.
  intros [Hh Hw]. destruct a as [|row rest].
  - right. now split.
  - left. unfold shape. simpl in *. inversion Hw; subst. reflexivity.
Qed.

Lemma row_length (A : Type) (h w : nat) (a : list (list A)) (i : nat) :
  has_shape h w a -> i < h -> length (nth i a []) = w.
Proof.
  intros [Hh Hw] Hi. rewrite Forall_forall in Hw.
  apply Hw, nth_In. lia.
Qed.

Lemma bget2_get2 (h w : nat) (a : list (list f64)) (i j : nat) :
  has_shape h w a -> i < h -> j < w -> bget2 a i j = get2 (Fin 0) a i j.
Proof.
  intros Ha Hi Hj. unfold bget2, get2, bidx.
  assert (Ei : (if (length a =? 1)%nat then 0 else i) = i).
  { destruct Ha as [Hh _]. destruct (Nat.eqb_spec (length a) 1); lia. }
  rewrite Ei. rewrite (row_length Ha Hi).
  destruct (Nat.eqb_spec w 1); [|reflexivity].
  now replace j with 0 by lia.
Qed.

Lemma bdim_same (n : nat) : bdim n n = Ok n.
Proof. unfold bdim. now rewrite Nat.eqb_refl. Qed.

(** ** The steps of [demosaic] on arrays of one shape *)

Lemma np_mul2_mask (h w : nat) (image : list (list f64)) (mask : list (list Z)) :
  has_shape h w image -> has_shape h w mask ->
  np_mul2 image (as_float mask) = Ok (masked h w image mask).
Proof.
  intros Hi Hm.
  assert (Hf : has_shape h w (as_float mask)).
  { destruct Hm as [Hh Hw]. unfold as_float. split; [now rewrite length_map|].
    apply Forall_map. eapply Forall_impl; [|exact Hw].
    intros row Hr. simpl. now rewrite length_map. }
  unfold np_mul2, masked.
  destruct (shape_cases Hi) as [Ei | [-> ->]].
  - destruct (shape_cases Hf) as [Ef | [-> Ef]].
    + rewrite Ei, Ef, !bdim_same. simpl. f_equal.
      apply tabulate2_ext. intros i j Bi Bj.
      rewrite (bget2_get2 Hi Bi Bj), (bget2_get2 Hf Bi Bj). f_equal.
      unfold get2, as_float.
      rewrite (nth_indep _ [] (map of_int [])) by (rewrite length_map; destruct Hm as [-> _]; exact Bi).
      rewrite (map_nth (map of_int)).
      rewrite (nth_indep _ (Fin 0) (of_int 0)).
      * now rewrite map_nth.
      * rewrite length_map, (row_length Hm Bi). exact Bj.
    + destruct Hi as [Hl _]. destruct image; [|discriminate]. now rewrite Ef.
  - destruct Hf as [Hl _]. destruct (as_float mask); [|discriminate]. reflexivity.
Qed.

Lemma masked_shape (h w : nat) (image : list (list f64)) (mask : list (list Z)) :
  has_shape h w (masked h w image mask).
Proof. apply tabulate2_shape. Qed.

Lemma convolve_shape (h w : nat) (input weights : list (list f64)) :
  has_shape h w input -> has_shape h w (convolve input weights).
Proof.
  intros Hi. unfold convolve.
  destruct (shape_cases Hi) as [-> | [-> ->]].
  - destruct (shape weights). apply tabulate2_shape.
  - simpl. destruct (shape weights). split; [reflexivity | constructor].
Qed.

Lemma zeros3_shape (h w c : nat) : has_shape3 h w c (zeros3 h w c).
Proof.
  unfold zeros3. split; [apply repeat_length|].
  apply Forall_forall. intros row Hr. apply repeat_spec in Hr. subst row.
  split; [apply repeat_length|].
  apply Forall_forall. intros px Hp. apply repeat_spec in Hp. subst px.
  apply repeat_length.
Qed.

Lemma has_shape3_rows (A : Type) (h w c : nat) (a : list (list (list A))) :
  has_shape3 h w c a -> has_shape h w a.
Proof.
  intros [Hh Hr]. split; [exact Hh|].
  eapply Forall_impl; [|exact Hr]. now intros row [Hw _].
Qed.

Lemma set_channel_same (k h w : nat) (src : list (list f64))
    (dst : list (list (list f64))) :
  has_shape h w src -> has_shape h w dst ->
  set_channel k src dst =
  Ok (tabulate2 h w (fun i j => set_nth k (get2 (Fin 0) src i j) (get2 [] dst i j))).
Proof.
  intros Hs Hd. unfold set_channel.
  destruct (shape_cases Hd) as [Ed | [-> ->]].
  - destruct (shape_cases Hs) as [Es | [-> Es]].
    + rewrite Ed, Es, !Nat.eqb_refl. simpl. f_equal.
      apply tabulate2_ext. intros i j Bi Bj.
      now rewrite (bget2_get2 Hs Bi Bj).
    + destruct Hd as [Hl _]. destruct dst; [|discriminate]. now rewrite Es.
  - destruct Hs as [Hl _]. destruct src; [|discriminate]. reflexivity.
Qed.

Lemma save_channels_ok (h w : nat) (image : list (list f64)) (i : nat)
    (filters : list (list (list Z))) :
  has_shape h w image -> Forall (has_shape h w) filters ->
  save_channels image h w i filters = Ok tt.
Proof.
  intros Hi Hf. revert i. induction Hf as [|m rest Hm _ IH]; intros i; simpl.
  - reflexivity.
  - rewrite (np_mul2_mask Hi Hm). unfold bind at 1.
    rewrite (set_channel_same i (masked_shape h w image m)
               (has_shape3_rows (zeros3_shape h w 3))).
    unfold bind at 1. apply IH.
Qed.

Lemma get2_zeros3 (h w c i j : nat) :
  i < h -> j < w -> get2 [] (zeros3 h w c) i j = repeat (Fin 0) c.
Proof.
  intros Hi Hj. unfold get2, zeros3.
  rewrite (nth_indep _ [] (repeat (repeat (Fin 0) c) w)) by now rewrite repeat_length.
  rewrite nth_repeat.
  rewrite (nth_indep _ [] (repeat (Fin 0) c)) by now rewrite repeat_length.
  apply nth_repeat.
Qed.

(** [demosaic] on an array of even sides: the value it returns. *)
Lemma demosaic_value (H W : nat) (image : list (list f64)) :
  Nat.even H = true -> Nat.even W = true -> has_shape H W image ->
  demosaic image = Ok (stacked H W image).
Proof.
  intros HH HW Hi. unfold stacked.
  destruct (shape_cases Hi) as [Es | [-> ->]]; [|reflexivity].
  destruct (mask_shapes H W HH HW) as (Hr & Hg & Hb).
  assert (Hs : save_channels image H W 0
                 [red_mask H W; green_mask H W; blue_mask H W] = Ok tt).
  { apply save_channels_ok; [assumption|].
    apply Forall_cons; [exact Hr|]. apply Forall_cons; [exact Hg|].
    apply Forall_cons; [exact Hb|]. apply Forall_nil. }
  unfold demosaic. rewrite Es. cbv zeta. rewrite Hs.
  unfold bind at 1.
  rewrite (np_mul2_mask Hi Hr). unfold bind at 1.
  rewrite (set_channel_same 0 (convolve_shape _ (masked_shape H W image _))
             (has_shape3_rows (zeros3_shape H W 3))).
  unfold bind at 1.
  rewrite (np_mul2_mask Hi Hg). unfold bind at 1.
  rewrite (set_channel_same 1 (convolve_shape _ (masked_shape H W image _))
             (tabulate2_shape H W _)).
  unfold bind at 1.
  rewrite (np_mul2_mask Hi Hb). unfold bind at 1.
  rewrite (set_channel_same 2 (convolve_shape _ (masked_shape H W image _))
             (tabulate2_shape H W _)).
  unfold bind. f_equal. apply tabulate2_ext. intros i j Bi Bj.
  rewrite !get2_tabulate2 by assumption.
  rewrite get2_zeros3 by assumption. reflexivity.
Qed.

Lemma stacked_shape (H W : nat) (image : list (list f64)) :
  has_shape3 H W 3 (stacked H W image).
Proof.
  split; [apply length_tabulate|].
  unfold stacked, tabulate2, tabulate. apply Forall_map, Forall_forall. intros i _.
  split; [now rewrite length_map, length_seq|].
  apply Forall_map, Forall_forall. now intros j _.
Qed.

Lemma get3_stacked (H W : nat) (image : list (list f64)) (i j k : nat) :
  i < H -> j < W -> k < 3 ->
  get3 (Fin 0) (stacked H W image) i j k = get2 (Fin 0) (interpolated H W image k) i j.
Proof.
  intros Bi Bj Bk. unfold get3, stacked.
  change (nth j (nth i ?a []) []) with (get2 [] a i j).
  rewrite get2_tabulate2 by assumption.
  destruct k as [|[|[|k]]]; [reflexivity | reflexivity | reflexivity | lia].
Qed.

(** C2: on a sensor array of even height [H] and even width [W], [demosaic]
    returns an image of shape [H x W x 3], and channel [k] of each of its
    pixels is the value the convolution produced there, unclamped. *)
Theorem demosaic_shape (H W : nat) (image : list (list f64)) :
  Nat.even H = true -> Nat.even W = true -> has_shape H W image ->
  exists out,
    demosaic image = Ok out /\
    has_shape3 H W 3 out /\
    forall i j k, i < H -> j < W -> k < 3 ->
      get3 (Fin 0) out i j k = get2 (Fin 0) (interpolated H W image k) i j.
Proof.
  intros HH HW Hi. exists (stacked H W image).
  split; [apply (demosaic_value HH HW Hi)|]. split.
  - apply stacked_shape.
  - intros i j k. apply get3_stacked.
Qed.

Lemma demosaic_shape_witness :
  exists out,
    demosaic sensor4 = Ok out /\
    has_shape3 4 4 3 out /\
    forall i j k, i < 4 -> j < 4 -> k < 3 ->
      get3 (Fin 0) out i j k = get2 (Fin 0) (interpolated 4 4 sensor4 k) i j.
Proof.
  apply (@demosaic_shape 4 4 sensor4); [reflexivity | reflexivity |].
  split; [reflexivity | repeat constructor].
Defined.

(** ** Scalars *)

Lemma fdiv_finite (a b : R) : b <> 0%R -> fdiv (Fin a) (Fin b) = Fin (a / b).
Proof. intros Hb. unfold fdiv. now destruct (Req_dec_T b 0). Qed.

Lemma reciprocal_zero : fdiv (Fin 1) (Fin 0) = PInf.
Proof.
  unfold fdiv. destruct (Req_dec_T 0 0) as [_|N]; [|now elim N].
  unfold signed_inf. destruct (Rlt_dec 0 1) as [_|N]; [reflexivity | elim N; lra].
Qed.

Lemma signed_inf_pos (s : R) : (0 < s)%R -> signed_inf s = PInf.
Proof. intros Hs. unfold signed_inf. destruct (Rlt_dec 0 s); [reflexivity | contradiction]. Qed.

Lemma signed_inf_neg (s : R) : (s < 0)%R -> signed_inf s = NInf.
Proof.
  intros Hs. unfold signed_inf.
  destruct (Rlt_dec 0 s); [lra|]. destruct (Rlt_dec s 0); [reflexivity | contradiction].
Qed.

Lemma signed_inf_zero : signed_inf 0 = NaN.
Proof.
  unfold signed_inf.
  destruct (Rlt_dec 0 0); [lra|]. destruct (Rlt_dec 0 0); [lra | reflexivity].
Qed.

Lemma clip_finite (a : R) :
  np_clip (Fin a) (Fin 0) (Fin 1) = Fin (Rmin (Rmax a 0) 1).
Proof. reflexivity. Qed.

Lemma clip_bounds (a : R) : (0 <= Rmin (Rmax a 0) 1 <= 1)%R.
Proof.
  unfold Rmin, Rmax.
  destruct (Rle_dec a 0); destruct (Rle_dec _ 1); lra.
Qed.

Lemma clip_inside (a : R) : (0 <= a <= 1)%R -> Rmin (Rmax a 0) 1 = a.
Proof.
  intros Ha. unfold Rmin, Rmax.
  destruct (Rle_dec a 0); destruct (Rle_dec _ 1); lra.
Qed.

Lemma clip_above (a : R) : (1 <= a)%R -> Rmin (Rmax a 0) 1 = 1%R.
Proof.
  intros Ha. unfold Rmin, Rmax.
  destruct (Rle_dec a 0); destruct (Rle_dec _ 1); lra.
Qed.

(** ** Indexing *)

Lemma py_index_nonneg (A : Type) (l : list A) (i : Z) (d : A) :
  (0 <= i < Z.of_nat (length l))%Z ->
  py_index l i = Ok (nth (Z.to_nat i) l d).
Proof.
  intros Hi. unfold py_index.
  destruct (Z.ltb_spec i 0); [lia|].
  destruct (Z.leb_spec 0 i); [|lia].
  destruct (Z.ltb_spec i (Z.of_nat (length l))); [|lia]. simpl.
  destruct (nth_error l (Z.to_nat i)) eqn:E.
  - now rewrite (nth_error_nth _ _ d E).
  - apply nth_error_None in E. lia.
Qed.

Lemma py_index_wraps (A : Type) (l : list A) (i : Z) :
  (- Z.of_nat (length l) <= i < 0)%Z ->
  py_index l i = py_index l (i + Z.of_nat (length l)).
Proof.
  intros Hi. unfold py_index.
  destruct (Z.ltb_spec i 0); [|lia].
  destruct (Z.ltb_spec (i + Z.of_nat (length l)) 0); [lia|]. reflexivity.
Qed.

Lemma py_index_outside (A : Type) (l : list A) (i : Z) :
  (Z.of_nat (length l) <= i \/ i < - Z.of_nat (length l))%Z ->
  py_index l i = Raise IndexError.
Proof.
  intros Hi. unfold py_index.
  destruct (Z.ltb_spec i 0).
  - destruct (Z.leb_spec 0 (i + Z.of_nat (length l))); [lia | reflexivity].
  - destruct (Z.leb_spec 0 i); [|lia].
    destruct (Z.ltb_spec i (Z.of_nat (length l))); [lia | reflexivity].
Qed.

Lemma py_index_In (A : Type) (l : list A) (i : Z) (x : A) :
  py_index l i = Ok x -> In x l.
Proof.
  unfold py_index. destruct (_ && _); [|discriminate].
  destruct (nth_error l _) eqn:E; [|discriminate].
  intros [= <-]. eapply nth_error_In, E.
Qed.

(** ** The steps of [white_balance] *)

Lemma nth_map_lt (A B : Type) (f : A -> B) (l : list A) (i : nat) (d : A) (d' : B) :
  i < length l -> nth i (map f l) d' = f (nth i l d).
Proof.
  intros Hi. rewrite (nth_indep _ d' (f d)) by now rewrite length_map.
  apply map_nth.
Qed.

Lemma map2_map2 (A B C : Type) (f : A -> B) (g : B -> C) (a : list (list A)) :
  map (map g) (map (map f) a) = map (map (fun x => g (f x))) a.
Proof. rewrite map_map. apply map_ext. intros row. apply map_map. Qed.

Lemma get2_map2 (A B : Type) (f : A -> B) (d : A) (d' : B) (h w : nat)
    (a : list (list A)) (i j : nat) :
  has_shape h w a -> i < h -> j < w ->
  get2 d' (map (map f) a) i j = f (get2 d a i j).
Proof.
  intros Ha Hi Hj. unfold get2.
  rewrite (@nth_map_lt _ _ _ _ _ [] []) by (destruct Ha; lia).
  apply nth_map_lt. rewrite (row_length Ha Hi). exact Hj.
Qed.

Lemma mapM_ok (A B : Type) (f : A -> result B) (g : A -> B) (l : list A) :
  Forall (fun x => f x = Ok (g x)) l -> mapM f l = Ok (map g l).
Proof.
  induction 1 as [|x l Hx _ IH]; simpl; [reflexivity|].
  now rewrite Hx, IH.
Qed.

Lemma mul_pixel_three (reference px : list f64) :
  length px = 3 -> length reference = 3 ->
  mul_pixel reference px = Ok (scaled_pixel reference px).
Proof.
  intros Hp Hr. unfold mul_pixel, scaled_pixel, bidx. now rewrite Hp, Hr.
Qed.

Lemma np_mul3_three (H W : nat) (image : list (list (list f64))) (reference : list f64) :
  has_shape3 H W 3 image -> length reference = 3 ->
  np_mul3 image reference = Ok (map (map (scaled_pixel reference)) image).
Proof.
  intros [_ Hrows] Hr. unfold np_mul3.
  apply mapM_ok. eapply Forall_impl; [|exact Hrows].
  intros row [_ Hpx]. apply mapM_ok. eapply Forall_impl; [|exact Hpx].
  intros px Hp. simpl in Hp. now apply mul_pixel_three.
Qed.

Lemma white_balance_with (H W : nat) (image : list (list (list f64)))
    (ref : white_reference) (reference : list f64) :
  has_shape3 H W 3 image -> reference_of image ref = Ok reference ->
  length reference = 3 ->
  white_balance image ref = Ok (balanced reference image).
Proof.
  intros Hs Hr Hl. unfold white_balance. rewrite Hr. unfold bind at 1.
  now rewrite (@np_mul3_three H W image reference Hs Hl).
Qed.

Lemma balanced_shape (H W : nat) (image : list (list (list f64))) (reference : list f64) :
  has_shape3 H W 3 image -> has_shape3 H W 3 (balanced reference image).
Proof.
  intros [Hh Hrows]. unfold balanced, map3. split; [now rewrite !length_map|].
  rewrite map_map. apply Forall_map. eapply Forall_impl; [|exact Hrows].
  intros row [Hw Hpx]. split; [now rewrite !length_map|].
  rewrite map_map. apply Forall_map. eapply Forall_impl; [|exact Hpx].
  intros px _. cbv beta. rewrite length_map. apply length_tabulate.
Qed.

Lemma get3_balanced (H W : nat) (image : list (list (list f64)))
    (reference : list f64) (i j k : nat) :
  has_shape3 H W 3 image -> i < H -> j < W -> k < 3 ->
  get3 (Fin 0) (balanced reference image) i j k =
  np_clip (fmul (get3 (Fin 0) image i j k) (nth k reference (Fin 0))) (Fin 0) (Fin 1).
Proof.
  intros Hs Hi Hj Hk. unfold get3, balanced, map3.
  rewrite map2_map2.
  change (nth j (nth i ?a []) []) with (get2 [] a i j).
  rewrite (@get2_map2 _ _ _ [] [] _ _ _ _ _ (has_shape3_rows Hs) Hi Hj).
  rewrite (@nth_map_lt _ _ _ _ _ (Fin 0) (Fin 0))
    by (unfold scaled_pixel; rewrite length_tabulate; lia).
  unfold scaled_pixel. now rewrite nth_tabulate by lia.
Qed.

Lemma finite_nth (l : list f64) (k : nat) :
  Forall is_finite l -> k < length l -> exists a, nth k l (Fin 0) = Fin a.
Proof.
  intros Hf Hk. rewrite Forall_forall in Hf.
  specialize (Hf _ (nth_In l (Fin 0) Hk)).
  destruct (nth k l (Fin 0)); try contradiction. now eexists.
Qed.

Lemma balanced_within (H W : nat) (image : list (list (list f64))) (reference : list f64) :
  has_shape3 H W 3 image -> all3 is_finite image ->
  Forall is_finite reference -> length reference = 3 ->
  all3 (within 0 1) (balanced reference image).
Proof.
  intros [_ Hrows] Hfin Href Hl. unfold all3, balanced, map3 in *.
  rewrite map2_map2.
  apply Forall_map, Forall_forall. intros row Hrow.
  rewrite Forall_forall in Hrows, Hfin.
  specialize (Hrows _ Hrow). specialize (Hfin _ Hrow). destruct Hrows as [_ Hpx].
  apply Forall_map, Forall_forall. intros px Hin.
  rewrite Forall_forall in Hpx, Hfin.
  specialize (Hpx _ Hin). specialize (Hfin _ Hin). simpl in Hpx.
  apply Forall_map. unfold scaled_pixel, tabulate. apply Forall_map.
  apply Forall_forall. intros k Hk. apply in_seq in Hk.
  destruct (@finite_nth px k Hfin) as [a ->]; [lia|].
  destruct (@finite_nth reference k Href) as [g ->]; [lia|].
  simpl. apply clip_bounds.
Qed.

(** C3, as amended: for every image of shape [H x W x 3] whose entries are
    numbers and every triple of finite gains, [white_balance] returns an
    image of the same shape, whose channel [k] at each pixel is the input
    times gain [k] clipped to [0, 1], and all of whose entries lie in
    [0, 1]. *)
Theorem white_balance_gains (H W : nat) (image : list (list (list f64)))
    (g0 g1 g2 : R) :
  has_shape3 H W 3 image -> all3 is_finite image ->
  exists out,
    white_balance image (RefList [Fin g0; Fin g1; Fin g2]) = Ok out /\
    has_shape3 H W 3 out /\
    all3 (within 0 1) out /\
    forall i j k, i < H -> j < W -> k < 3 ->
      get3 (Fin 0) out i j k =
      np_clip (fmul (get3 (Fin 0) image i j k)
                    (nth k [Fin g0; Fin g1; Fin g2] (Fin 0))) (Fin 0) (Fin 1).
Proof.
  intros Hs Hfin. exists (balanced [Fin g0; Fin g1; Fin g2] image).
  split; [|split; [|split]].
  - now apply (white_balance_with (H:=H) (W:=W)).
  - now apply balanced_shape.
  - apply (balanced_within Hs Hfin); [repeat constructor | reflexivity].
  - intros i j k. now apply get3_balanced.
Qed.

Lemma white_balance_gains_witness :
  exists out,
    white_balance [[[Fin 2; Fin 0; Fin (-1)]]] (RefList [Fin 1; Fin 1; Fin 1]) = Ok out /\
    has_shape3 1 1 3 out /\
    all3 (within 0 1) out /\
    forall i j k, i < 1 -> j < 1 -> k < 3 ->
      get3 (Fin 0) out i j k =
      np_clip (fmul (get3 (Fin 0) [[[Fin 2; Fin 0; Fin (-1)]]] i j k)
                    (nth k [Fin 1; Fin 1; Fin 1] (Fin 0))) (Fin 0) (Fin 1).
Proof.
  apply (@white_balance_gains 1 1 [[[Fin 2; Fin 0; Fin (-1)]]] 1 1 1).
  - split; [reflexivity|]. repeat constructor.
  - repeat constructor.
Defined.

(** C3 as stated fails on an image that holds a [nan]: the clip keeps it. *)
Lemma white_balance_nan_input :
  white_balance [[[NaN; Fin 0; Fin 0]]] (RefList [Fin 1; Fin 1; Fin 1]) =
    Ok (balanced [Fin 1; Fin 1; Fin 1] [[[NaN; Fin 0; Fin 0]]]) /\
  get3 (Fin 0) (balanced [Fin 1; Fin 1; Fin 1] [[[NaN; Fin 0; Fin 0]]]) 0 0 0 = NaN /\
  ~ all3 (within 0 1) (balanced [Fin 1; Fin 1; Fin 1] [[[NaN; Fin 0; Fin 0]]]).
Proof.
  split; [reflexivity|]. split; [reflexivity|].
  intros Hall. unfold all3 in Hall.
  inversion Hall as [|? ? Hrow _]; subst.
  inversion Hrow as [|? ? Hpx _]; subst.
  inversion Hpx as [|? ? Hx _]; subst. exact Hx.
Qed.

(** ** The pixel-coordinate reference *)

Lemma py_index_raise (A : Type) (l : list A) (i : Z) (e : exn) :
  py_index l i = Raise e -> e = IndexError.
Proof.
  unfold py_index. destruct (_ && _).
  - destruct (nth_error l _); [discriminate | now intros [= <-]].
  - now intros [= <-].
Qed.

Lemma getitem3_inside (H W C : nat) (image : list (list (list f64))) (r c k : Z) :
  has_shape3 H W C image ->
  (0 <= r < Z.of_nat H)%Z -> (0 <= c < Z.of_nat W)%Z -> (0 <= k < Z.of_nat C)%Z ->
  getitem3 image r c k =
  Ok (get3 (Fin 0) image (Z.to_nat r) (Z.to_nat c) (Z.to_nat k)).
Proof.
  intros Hs Hr Hc Hk. unfold getitem3, get3.
  pose proof (has_shape3_rows Hs) as H2. destruct Hs as [Hh Hrows].
  rewrite (py_index_nonneg image []) by lia. unfold bind at 1.
  assert (Br : Z.to_nat r < H) by lia.
  rewrite (py_index_nonneg _ []) by (rewrite (row_length H2 Br); lia).
  unfold bind at 1.
  apply py_index_nonneg.
  rewrite Forall_forall in Hrows.
  assert (Hrow : has_shape W C (nth (Z.to_nat r) image []))
    by (apply Hrows, nth_In; lia).
  assert (Bc : Z.to_nat c < W) by lia.
  rewrite (row_length Hrow Bc). lia.
Qed.

Lemma getitem3_outside (H W C : nat) (image : list (list (list f64))) (r c k : Z) :
  has_shape3 H W C image ->
  (Z.of_nat H <= r \/ r < - Z.of_nat H \/ Z.of_nat W <= c \/ c < - Z.of_nat W)%Z ->
  getitem3 image r c k = Raise IndexError.
Proof.
  intros [Hh Hrows] Hout. unfold getitem3.
  destruct (py_index image r) as [row|e] eqn:E.
  - unfold bind at 1.
    assert (Hlen : length row = W).
    { rewrite Forall_forall in Hrows.
      destruct (Hrows _ (py_index_In _ _ E)) as [Hw _]. exact Hw. }
    assert (Hc : (Z.of_nat W <= c \/ c < - Z.of_nat W)%Z).
    { destruct Hout as [Hr | [Hr | Hc]]; [| |exact Hc].
      - rewrite py_index_outside in E by lia. discriminate.
      - rewrite py_index_outside in E by lia. discriminate. }
    rewrite py_index_outside by (rewrite Hlen; exact Hc). reflexivity.
  - apply py_index_raise in E. now subst e.
Qed.

Lemma getitem3_wraps_row (H W C : nat) (image : list (list (list f64))) (r c k : Z) :
  has_shape3 H W C image -> (- Z.of_nat H <= r < 0)%Z ->
  getitem3 image r c k = getitem3 image (r + Z.of_nat H) c k.
Proof.
  intros [Hh _] Hr. unfold getitem3.
  now rewrite py_index_wraps, Hh by lia.
Qed.

Lemma getitem3_wraps_col (H W C : nat) (image : list (list (list f64))) (r c k : Z) :
  has_shape3 H W C image -> (- Z.of_nat W <= c < 0)%Z ->
  getitem3 image r c k = getitem3 image r (c + Z.of_nat W) k.
Proof.
  intros [Hh Hrows] Hc. unfold getitem3.
  destruct (py_index image r) as [row|e] eqn:E; [|reflexivity].
  unfold bind at 1 3.
  assert (Hlen : length row = W).
  { rewrite Forall_forall in Hrows.
    destruct (Hrows _ (py_index_In _ _ E)) as [Hw _]. exact Hw. }
  now rewrite py_index_wraps, Hlen by (rewrite Hlen; lia).
Qed.

Lemma reference_of_inside (H W : nat) (image : list (list (list f64))) (r c : Z) :
  has_shape3 H W 3 image ->
  (0 <= r < Z.of_nat H)%Z -> (0 <= c < Z.of_nat W)%Z ->
  reference_of image (RefTuple r c) =
  Ok [fdiv (Fin 1) (get3 (Fin 0) image (Z.to_nat r) (Z.to_nat c) 0);
      fdiv (Fin 1) (get3 (Fin 0) image (Z.to_nat r) (Z.to_nat c) 1);
      fdiv (Fin 1) (get3 (Fin 0) image (Z.to_nat r) (Z.to_nat c) 2)].
Proof.
  intros Hs Hr Hc. unfold reference_of.
  rewrite (@getitem3_inside H W 3 image r c 0 Hs Hr Hc) by lia.
  rewrite (@getitem3_inside H W 3 image r c 1 Hs Hr Hc) by lia.
  rewrite (@getitem3_inside H W 3 image r c 2 Hs Hr Hc) by lia.
  reflexivity.
Qed.

Lemma white_balance_tuple_ext (image : list (list (list f64))) (r c r' c' : Z) :
  (forall k, getitem3 image r c k = getitem3 image r' c' k) ->
  white_balance image (RefTuple r c) = white_balance image (RefTuple r' c').
Proof.
  intros E. unfold white_balance, reference_of. now rewrite !E.
Qed.

Lemma clip_zero_times_inf (g : f64) :
  g = PInf \/ g = NInf -> np_clip (fmul (Fin 0) g) (Fin 0) (Fin 1) = NaN.
Proof.
  intros [-> | ->].
  - change (fmul (Fin 0) PInf) with (signed_inf 0).
    now rewrite signed_inf_zero.
  - change (fmul (Fin 0) NInf) with (signed_inf (- 0)).
    rewrite Ropp_0. now rewrite signed_inf_zero.
Qed.

Lemma nth_reference (v0 v1 v2 : f64) (k : nat) (v : nat -> f64) :
  v 0 = v0 -> v 1 = v1 -> v 2 = v2 -> k < 3 ->
  nth k [fdiv (Fin 1) v0; fdiv (Fin 1) v1; fdiv (Fin 1) v2] (Fin 0) = fdiv (Fin 1) (v k).
Proof.
  intros <- <- <- Hk. destruct k as [|[|[|k]]]; [reflexivity | reflexivity | reflexivity | lia].
Qed.

(** C4, as amended: when the reference is a pixel coordinate inside the
    image and channel [k] of that pixel is 0, [white_balance] raises
    nothing: gain [k] is an infinity, and the image it returns has the shape
    of the input, with [nan] in channel [k] wherever the input is 0, the
    reference pixel among them. *)
Theorem white_balance_zero_reference (H W : nat) (image : list (list (list f64)))
    (r c : Z) (k : nat) :
  has_shape3 H W 3 image ->
  (0 <= r < Z.of_nat H)%Z -> (0 <= c < Z.of_nat W)%Z -> k < 3 ->
  get3 (Fin 0) image (Z.to_nat r) (Z.to_nat c) k = Fin 0 ->
  exists reference out,
    reference_of image (RefTuple r c) = Ok reference /\
    (nth k reference (Fin 0) = PInf \/ nth k reference (Fin 0) = NInf) /\
    white_balance image (RefTuple r c) = Ok out /\
    has_shape3 H W 3 out /\
    get3 (Fin 0) out (Z.to_nat r) (Z.to_nat c) k = NaN /\
    forall i j, i < H -> j < W -> get3 (Fin 0) image i j k = Fin 0 ->
      get3 (Fin 0) out i j k = NaN.
Proof.
  intros Hs Hr Hc Hk Hz.
  pose proof (reference_of_inside Hs Hr Hc) as Eref.
  set (reference := [fdiv (Fin 1) (get3 (Fin 0) image (Z.to_nat r) (Z.to_nat c) 0);
                     fdiv (Fin 1) (get3 (Fin 0) image (Z.to_nat r) (Z.to_nat c) 1);
                     fdiv (Fin 1) (get3 (Fin 0) image (Z.to_nat r) (Z.to_nat c) 2)]) in *.
  assert (Egain : nth k reference (Fin 0) = PInf \/ nth k reference (Fin 0) = NInf).
  { left. unfold reference.
    rewrite (@nth_reference _ _ _ k
               (get3 (Fin 0) image (Z.to_nat r) (Z.to_nat c))
               eq_refl eq_refl eq_refl Hk).
    rewrite Hz. apply reciprocal_zero. }
  assert (Epix : forall i j, i < H -> j < W ->
            get3 (Fin 0) image i j k = Fin 0 ->
            get3 (Fin 0) (balanced reference image) i j k = NaN).
  { intros i j Bi Bj Ea.
    rewrite (get3_balanced reference Hs Bi Bj Hk), Ea.
    now apply clip_zero_times_inf. }
  exists reference, (balanced reference image).
  split; [exact Eref|]. split; [exact Egain|].
  split; [exact (@white_balance_with H W image (RefTuple r c) reference Hs Eref eq_refl)|].
  split; [now apply balanced_shape|]. split.
  - apply Epix; (assumption || lia).
  - exact Epix.
Qed.

Lemma white_balance_zero_reference_witness :
  exists reference out,
    reference_of [[[Fin 0; Fin 0; Fin 0]]] (RefTuple 0 0) = Ok reference /\
    (nth 0 reference (Fin 0) = PInf \/ nth 0 reference (Fin 0) = NInf) /\
    white_balance [[[Fin 0; Fin 0; Fin 0]]] (RefTuple 0 0) = Ok out /\
    has_shape3 1 1 3 out /\
    get3 (Fin 0) out 0 0 0 = NaN /\
    forall i j, i < 1 -> j < 1 ->
      get3 (Fin 0) [[[Fin 0; Fin 0; Fin 0]]] i j 0 = Fin 0 ->
      get3 (Fin 0) out i j 0 = NaN.
Proof.
  apply (@white_balance_zero_reference 1 1 [[[Fin 0; Fin 0; Fin 0]]] 0 0 0).
  - split; [reflexivity | repeat constructor].
  - simpl; lia.
  - simpl; lia.
  - lia.
  - reflexivity.
Defined.

(** C4 as stated fails: a reference at a black pixel raises nothing, and
    the image returned holds [nan]. *)
Lemma white_balance_black_pixel :
  white_balance [[[Fin 0; Fin 0; Fin 0]]] (RefTuple 0 0) = Ok [[[NaN; NaN; NaN]]] /\
  ~ raises (white_balance [[[Fin 0; Fin 0; Fin 0]]] (RefTuple 0 0)).
Proof.
  assert (E : white_balance [[[Fin 0; Fin 0; Fin 0]]] (RefTuple 0 0) =
              Ok [[[NaN; NaN; NaN]]]).
  { assert (Hs : has_shape3 1 1 3 [[[Fin 0; Fin 0; Fin 0]]])
      by (split; [reflexivity | repeat constructor]).
    rewrite (@white_balance_with 1 1 _ _ [PInf; PInf; PInf] Hs).
    - unfold balanced, map3, scaled_pixel, tabulate. simpl map. simpl nth.
      change (fmul (Fin 0) PInf) with (signed_inf 0).
      rewrite signed_inf_zero. reflexivity.
    - rewrite (reference_of_inside Hs) by (simpl; lia).
      change (Ok [fdiv (Fin 1) (Fin 0); fdiv (Fin 1) (Fin 0); fdiv (Fin 1) (Fin 0)]
              = Ok [PInf; PInf; PInf]).
      now rewrite reciprocal_zero.
    - reflexivity. }
  split; [exact E|]. rewrite E. intros [e He]. discriminate.
Qed.

(** C7: with a pixel coordinate inside the image whose pixel [v] has three
    nonzero channels, the gains [white_balance] computes are the
    reciprocals of the channels of [v]; the image it returns is the one the
    gain-list mode returns for those gains: every entry is the input times
    the reciprocal, clipped to [0, 1], and the reference pixel becomes 1. *)
Theorem pixel_reference_is_reciprocal (H W : nat) (image : list (list (list f64)))
    (r c : Z) (v0 v1 v2 : R) :
  has_shape3 H W 3 image ->
  (0 <= r < Z.of_nat H)%Z -> (0 <= c < Z.of_nat W)%Z ->
  nth (Z.to_nat c) (nth (Z.to_nat r) image []) [] = [Fin v0; Fin v1; Fin v2] ->
  v0 <> 0%R -> v1 <> 0%R -> v2 <> 0%R ->
  reference_of image (RefTuple r c) = Ok [Fin (1 / v0); Fin (1 / v1); Fin (1 / v2)] /\
  white_balance image (RefTuple r c) =
    white_balance image (RefList [Fin (1 / v0); Fin (1 / v1); Fin (1 / v2)]) /\
  exists out,
    white_balance image (RefTuple r c) = Ok out /\
    (forall i j k, i < H -> j < W -> k < 3 ->
       get3 (Fin 0) out i j k =
       np_clip (fmul (get3 (Fin 0) image i j k)
                     (nth k [Fin (1 / v0); Fin (1 / v1); Fin (1 / v2)] (Fin 0)))
               (Fin 0) (Fin 1)) /\
    (forall k, k < 3 -> get3 (Fin 0) out (Z.to_nat r) (Z.to_nat c) k = Fin 1).
Proof.
  intros Hs Hr Hc Hv N0 N1 N2.
  assert (Eref : reference_of image (RefTuple r c) =
                 Ok [Fin (1 / v0); Fin (1 / v1); Fin (1 / v2)]).
  { rewrite (reference_of_inside Hs Hr Hc). unfold get3. rewrite Hv. simpl nth.
    now rewrite !fdiv_finite by assumption. }
  split; [exact Eref|]. split.
  - unfold white_balance at 1. now rewrite Eref.
  - exists (balanced [Fin (1 / v0); Fin (1 / v1); Fin (1 / v2)] image).
    split; [exact (@white_balance_with H W image (RefTuple r c) _ Hs Eref eq_refl)|].
    split.
    + intros i j k. now apply get3_balanced.
    + intros k Hk.
      rewrite (@get3_balanced H W image _ (Z.to_nat r) (Z.to_nat c) k Hs) by lia.
      unfold get3. rewrite Hv.
      assert (E : forall v : R, v <> 0%R ->
                np_clip (fmul (Fin v) (Fin (1 / v))) (Fin 0) (Fin 1) = Fin 1).
      { intros v Nv. change (fmul (Fin v) (Fin (1 / v))) with (Fin (v * (1 / v))).
        replace (v * (1 / v))%R with 1%R by (field; assumption).
        rewrite clip_finite. f_equal. apply clip_inside. lra. }
      destruct k as [|[|[|k]]]; [| | |lia]; simpl nth; now apply E.
Qed.

Lemma pixel_reference_is_reciprocal_witness :
  reference_of [[[Fin 2; Fin 4; Fin 5]]] (RefTuple 0 0) =
    Ok [Fin (1 / 2); Fin (1 / 4); Fin (1 / 5)] /\
  white_balance [[[Fin 2; Fin 4; Fin 5]]] (RefTuple 0 0) =
    white_balance [[[Fin 2; Fin 4; Fin 5]]]
      (RefList [Fin (1 / 2); Fin (1 / 4); Fin (1 / 5)]).
Proof.
  destruct (@pixel_reference_is_reciprocal 1 1 [[[Fin 2; Fin 4; Fin 5]]] 0 0 2 4 5)
    as (E1 & E2 & _).
  - split; [reflexivity | repeat constructor].
  - simpl; lia.
  - simpl; lia.
  - reflexivity.
  - lra.
  - lra.
  - lra.
  - split; assumption.
Defined.

(** C9, as amended: for an image of shape [H x W x 3], a pixel coordinate
    with [r] outside [-H, H) or [c] outside [-W, W) makes [white_balance]
    raise IndexError, and no image is returned; a negative coordinate
    inside that range counts from the end of its axis and is accepted like
    the coordinate it stands for. *)
Theorem white_balance_out_of_bounds (H W : nat) (image : list (list (list f64)))
    (r c : Z) :
  has_shape3 H W 3 image ->
  ((Z.of_nat H <= r \/ r < - Z.of_nat H \/ Z.of_nat W <= c \/ c < - Z.of_nat W)%Z ->
     white_balance image (RefTuple r c) = Raise IndexError) /\
  ((- Z.of_nat H <= r < 0)%Z ->
     white_balance image (RefTuple r c) =
     white_balance image (RefTuple (r + Z.of_nat H) c)) /\
  ((- Z.of_nat W <= c < 0)%Z ->
     white_balance image (RefTuple r c) =
     white_balance image (RefTuple r (c + Z.of_nat W))).
Proof.
  intros Hs. repeat split.
  - intros Hout. unfold white_balance, reference_of.
    now rewrite (getitem3_outside 0 Hs Hout).
  - intros Hr. apply white_balance_tuple_ext. intros k.
    now apply (getitem3_wraps_row c k Hs).
  - intros Hc. apply white_balance_tuple_ext. intros k.
    now apply (getitem3_wraps_col r k Hs).
Qed.

Lemma white_balance_out_of_bounds_witness :
  white_balance [[[Fin 1; Fin 1; Fin 1]]] (RefTuple 1 0) = Raise IndexError /\
  white_balance [[[Fin 1; Fin 1; Fin 1]]] (RefTuple (-2) 0) = Raise IndexError.
Proof.
  assert (Hs : has_shape3 1 1 3 [[[Fin 1; Fin 1; Fin 1]]])
    by (split; [reflexivity | repeat constructor]).
  split.
  - apply (proj1 (white_balance_out_of_bounds 1 0 Hs)). simpl; lia.
  - apply (proj1 (white_balance_out_of_bounds (-2) 0 Hs)). simpl; lia.
Defined.

(** C9 as stated fails: the coordinate (-1, -1) is not in [0, H) x [0, W),
    and [white_balance] reads the last pixel and returns an image. *)
Lemma white_balance_negative_index :
  ~ (0 <= -1 < Z.of_nat 1)%Z /\
  white_balance [[[Fin 1; Fin 1; Fin 1]]] (RefTuple (-1) (-1)) =
    Ok (balanced [fdiv (Fin 1) (Fin 1); fdiv (Fin 1) (Fin 1); fdiv (Fin 1) (Fin 1)]
          [[[Fin 1; Fin 1; Fin 1]]]) /\
  ~ raises (white_balance [[[Fin 1; Fin 1; Fin 1]]] (RefTuple (-1) (-1))).
Proof.
  assert (E : white_balance [[[Fin 1; Fin 1; Fin 1]]] (RefTuple (-1) (-1)) =
    Ok (balanced [fdiv (Fin 1) (Fin 1); fdiv (Fin 1) (Fin 1); fdiv (Fin 1) (Fin 1)]
          [[[Fin 1; Fin 1; Fin 1]]])) by reflexivity.
  split; [lia|]. split; [exact E|].
  rewrite E. intros [e He]. discriminate.
Qed.

(** ** Element-wise maps over an image *)

Lemma map3_shape (A B : Type) (f : A -> B) (H W C : nat) (a : list (list (list A))) :
  has_shape3 H W C a -> has_shape3 H W C (map3 f a).
Proof.
  intros [Hh Hrows]. unfold map3. split; [now rewrite length_map|].
  apply Forall_map. eapply Forall_impl; [|exact Hrows].
  intros row [Hw Hpx]. split; [now rewrite length_map|].
  apply Forall_map. eapply Forall_impl; [|exact Hpx].
  intros px Hp. cbv beta in *. now rewrite length_map.
Qed.

Lemma all3_map3 (A B : Type) (f : A -> B) (P : A -> Prop) (Q : B -> Prop)
    (a : list (list (list A))) :
  (forall x, P x -> Q (f x)) -> all3 P a -> all3 Q (map3 f a).
Proof.
  intros HPQ Ha. unfold all3, map3 in *.
  apply Forall_map. eapply Forall_impl; [|exact Ha].
  intros row Hrow. apply Forall_map. eapply Forall_impl; [|exact Hrow].
  intros px Hpx. apply Forall_map. eapply Forall_impl; [|exact Hpx].
  exact HPQ.
Qed.

Lemma get3_map3 (A B : Type) (f : A -> B) (d : A) (d' : B) (H W C : nat)
    (a : list (list (list A))) (i j k : nat) :
  has_shape3 H W C a -> i < H -> j < W -> k < C ->
  get3 d' (map3 f a) i j k = f (get3 d a i j k).
Proof.
  intros Hs Hi Hj Hk. unfold get3, map3.
  change (nth j (nth i ?x []) []) with (get2 [] x i j).
  rewrite (@get2_map2 _ _ _ [] [] _ _ _ _ _ (has_shape3_rows Hs) Hi Hj).
  apply nth_map_lt.
  destruct Hs as [Hh Hrows]. rewrite Forall_forall in Hrows.
  assert (Hrow : has_shape W C (nth i a [])) by (apply Hrows, nth_In; lia).
  unfold get2. rewrite (row_length Hrow Hj). exact Hk.
Qed.

(** ** Powers *)

Lemma np_power_zero_exponent (x : f64) : np_power x 0 = Fin 1.
Proof. unfold np_power. destruct (Req_dec_T 0 0) as [_|N]; [reflexivity | now elim N]. Qed.

Lemma np_power_positive (a y : R) :
  (0 < a)%R -> y <> 0%R -> np_power (Fin a) y = Fin (Rpower a y).
Proof.
  intros Ha Hy. unfold np_power.
  destruct (Req_dec_T y 0); [contradiction|].
  destruct (Rlt_dec 0 a); [reflexivity | contradiction].
Qed.

Lemma np_power_zero_base (y : R) :
  ((0 < y)%R -> np_power (Fin 0) y = Fin 0) /\
  ((y < 0)%R -> np_power (Fin 0) y = PInf).
Proof.
  unfold np_power. split; intros Hy.
  - destruct (Req_dec_T y 0); [lra|]. destruct (Rlt_dec 0 0); [lra|].
    destruct (Req_dec_T 0 0) as [_|N]; [|now elim N].
    destruct (Rlt_dec 0 y); [reflexivity | contradiction].
  - destruct (Req_dec_T y 0); [lra|]. destruct (Rlt_dec 0 0); [lra|].
    destruct (Req_dec_T 0 0) as [_|N]; [|now elim N].
    destruct (Rlt_dec 0 y); [lra | reflexivity].
Qed.

Lemma Rpower_unit (a g : R) : (0 < a <= 1)%R -> (0 < g)%R -> (0 < Rpower a g <= 1)%R.
Proof.
  intros Ha Hg. split; [apply exp_pos|].
  unfold Rpower. rewrite <- exp_0.
  destruct (Rle_lt_or_eq_dec _ _ (proj2 Ha)) as [Hlt | ->].
  - left. apply exp_increasing.
    assert (ln a < 0)%R by (rewrite <- ln_1; apply ln_increasing; lra).
    nra.
  - right. now rewrite ln_1, Rmult_0_r.
Qed.

Lemma np_power_within (x : f64) (g : R) :
  (0 < g)%R -> within 0 1 x -> within 0 1 (np_power x g).
Proof.
  intros Hg Hx. destruct x as [a| | |]; try contradiction. simpl in Hx.
  destruct (Rle_lt_or_eq_dec _ _ (proj1 Hx)) as [Hpos | <-].
  - rewrite np_power_positive by lra. simpl.
    pose proof (@Rpower_unit a g ltac:(lra) Hg). lra.
  - rewrite (proj1 (np_power_zero_base g) Hg). simpl. lra.
Qed.

Lemma exp_monotone (x y : R) : (x <= y)%R -> (exp x <= exp y)%R.
Proof.
  intros [Hlt | ->]; [left; now apply exp_increasing | right; reflexivity].
Qed.

Lemma Rpower_exponent (a g : R) :
  (0 < a <= 1)%R ->
  ((g <= 1)%R -> (a <= Rpower a g)%R) /\ ((1 <= g)%R -> (Rpower a g <= a)%R).
Proof.
  intros Ha.
  assert (Hln : (ln a <= 0)%R).
  { rewrite <- ln_1. destruct (proj2 Ha) as [Hlt | ->]; [|right; reflexivity].
    left. apply ln_increasing; lra. }
  assert (Ea : exp (ln a) = a) by (apply exp_ln; lra).
  unfold Rpower. split; intros Hg.
  - apply Rle_trans with (exp (ln a)); [rewrite Ea; lra | apply exp_monotone; nra].
  - apply Rle_trans with (exp (ln a)); [apply exp_monotone; nra | rewrite Ea; lra].
Qed.

Lemma pow2_pos (n : nat) : (0 < 2 ^ n)%R.
Proof. apply pow_lt. lra. Qed.

Lemma pow2_le (m n : nat) : m <= n -> (2 ^ m <= 2 ^ n)%R.
Proof. intros Hmn. apply Rle_pow; [lra | exact Hmn]. Qed.

Lemma inv_pow2_le (m n : nat) : m <= n -> (/ 2 ^ n <= / 2 ^ m)%R.
Proof.
  intros Hmn. apply Rinv_le_contravar; [apply pow2_pos | now apply pow2_le].
Qed.

Lemma f64_min_normal_bounds : (0 < f64_min_normal <= 1 / 16)%R.
Proof.
  unfold f64_min_normal. split.
  - apply Rinv_0_lt_compat, pow2_pos.
  - apply Rle_trans with (/ 2 ^ 4)%R; [apply inv_pow2_le; lia|].
    simpl. lra.
Qed.

Lemma f64_max_bounds : (2 <= f64_max < 2 ^ 1024)%R.
Proof.
  unfold f64_max.
  assert (He : (0 < / 2 ^ 52 <= 1)%R).
  { split; [apply Rinv_0_lt_compat, pow2_pos|].
    apply Rle_trans with (/ 2 ^ 0)%R; [apply inv_pow2_le; lia|].
    rewrite pow_O, Rinv_1. lra. }
  assert (Hp : (2 <= 2 ^ 1023)%R).
  { apply Rle_trans with (2 ^ 1)%R; [rewrite pow_1; lra | apply pow2_le; lia]. }
  change (2 ^ 1024)%R with (2 * 2 ^ 1023)%R.
  generalize dependent (2 ^ 1023)%R. generalize dependent (/ 2 ^ 52)%R.
  intros e He p Hp. split; nra.
Qed.

(** ** Gamma correction *)

Lemma get3_powers (H W C : nat) (image : list (list (list f64))) (gamma : R)
    (i j k : nat) :
  has_shape3 H W C image -> i < H -> j < W -> k < C ->
  get3 (Fin 0) (map3 (fun x => np_power x gamma) image) i j k =
  np_power (get3 (Fin 0) image i j k) gamma.
Proof.
  intros Hs Hi Hj Hk.
  exact (@get3_map3 _ _ (fun x => np_power x gamma) (Fin 0) (Fin 0)
           H W C image i j k Hs Hi Hj Hk).
Qed.

(** C5, as amended: for every image and every [gamma <= 0],
    [gamma_correction] rejects nothing: it returns an image of the shape of
    the input, with the element-wise powers; for [gamma = 0] every entry of
    it is 1, and for [gamma < 0] every positive entry [a] becomes
    [a ^ gamma], where that lies in the normal range of float64. *)
Theorem gamma_correction_unchecked (H W C : nat) (image : list (list (list f64)))
    (gamma : R) :
  (gamma <= 0)%R -> has_shape3 H W C image ->
  exists out,
    gamma_correction image gamma = Ok out /\
    has_shape3 H W C out /\
    (gamma = 0%R -> all3 (fun x => x = Fin 1) out) /\
    ((gamma < 0)%R -> forall i j k a, i < H -> j < W -> k < C ->
       get3 (Fin 0) image i j k = Fin a -> (0 < a)%R ->
       in_normal_range (Rpower a gamma) ->
       get3 (Fin 0) out i j k = Fin (Rpower a gamma)).
Proof.
  intros Hg Hs. exists (map3 (fun x => np_power x gamma) image).
  split; [reflexivity|]. split; [now apply map3_shape|].
  assert (Hget : forall i j k, i < H -> j < W -> k < C ->
            get3 (Fin 0) (map3 (fun x => np_power x gamma) image) i j k =
            np_power (get3 (Fin 0) image i j k) gamma).
  { intros i j k Bi Bj Bk. now apply (@get3_powers H W C). }
  split.
  - intros ->. apply (@all3_map3 _ _ _ (fun _ => True)).
    + intros x _. apply np_power_zero_exponent.
    + unfold all3. apply Forall_forall. intros row _. apply Forall_forall.
      intros px _. apply Forall_forall. trivial.
  - intros Hneg i j k a Bi Bj Bk Ea Ha _. rewrite (Hget i j k Bi Bj Bk), Ea.
    apply np_power_positive; lra.
Qed.

Lemma half_inverse : Rpower (1 / 2) (-1) = 2%R.
Proof.
  replace (-1)%R with (- (1))%R by lra.
  rewrite Rpower_Ropp, Rpower_1 by lra. field.
Qed.

Lemma gamma_correction_unchecked_witness :
  exists out,
    gamma_correction [[[Fin (1 / 2); Fin 0; Fin 1]]] (-1) = Ok out /\
    has_shape3 1 1 3 out /\
    get3 (Fin 0) out 0 0 0 = Fin (Rpower (1 / 2) (-1)).
Proof.
  destruct (@gamma_correction_unchecked 1 1 3 [[[Fin (1 / 2); Fin 0; Fin 1]]] (-1))
    as (out & E & Hs & _ & Hpow).
  - lra.
  - split; [reflexivity | repeat constructor].
  - exists out. split; [exact E|]. split; [exact Hs|].
    apply Hpow; [lra | lia | lia | lia | reflexivity | lra |].
    rewrite half_inverse. pose proof f64_min_normal_bounds.
    pose proof f64_max_bounds. split; lra.
Defined.

(** C5 as stated fails: [gamma = 0] is accepted and gives an image of ones,
    and a negative [gamma] is accepted as well. *)
Lemma gamma_zero_accepted :
  gamma_correction [[[Fin (1 / 2); Fin 0; Fin 1]]] 0 = Ok [[[Fin 1; Fin 1; Fin 1]]] /\
  ~ raises (gamma_correction [[[Fin (1 / 2); Fin 0; Fin 1]]] 0) /\
  ~ raises (gamma_correction [[[Fin (1 / 2); Fin 0; Fin 1]]] (-1)).
Proof.
  split; [|split].
  - unfold gamma_correction, map3. simpl map.
    now rewrite !np_power_zero_exponent.
  - intros [e He]. discriminate.
  - intros [e He]. discriminate.
Qed.

Lemma all3_get3 (A : Type) (P : A -> Prop) (d : A) (H W C : nat)
    (a : list (list (list A))) (i j k : nat) :
  has_shape3 H W C a -> all3 P a -> i < H -> j < W -> k < C ->
  P (get3 d a i j k).
Proof.
  intros Hs Ha Hi Hj Hk. unfold get3, all3 in *.
  pose proof (has_shape3_rows Hs) as H2. destruct Hs as [Hh Hrows].
  rewrite Forall_forall in Ha, Hrows.
  assert (Irow : In (nth i a []) a) by (apply nth_In; lia).
  specialize (Ha _ Irow). specialize (Hrows _ Irow).
  rewrite Forall_forall in Ha.
  assert (Ipx : In (nth j (nth i a []) []) (nth i a []))
    by (apply nth_In; rewrite (row_length H2 Hi); exact Hj).
  specialize (Ha _ Ipx). rewrite Forall_forall in Ha.
  apply Ha, nth_In. rewrite (row_length Hrows Hj). exact Hk.
Qed.

(** *** Gamma correction in float64 *)

Lemma np_power_with_exact (x : f64) (y : R) :
  np_power_with (fun a g => Fin (Rpower a g)) x y = np_power x y.
Proof.
  unfold np_power_with, np_power.
  destruct (Req_dec_T y 0); [reflexivity|].
  destruct x as [a| | |]; try reflexivity.
  destruct (Rlt_dec 0 a); [reflexivity|].
  destruct (Req_dec_T a 0); [reflexivity|].
  destruct (is_integer y); [|reflexivity].
  destruct (is_odd_integer y); [|reflexivity].
  cbn [fmul]. f_equal. ring.
Qed.





Lemma Rpower_one_base (y : R) : Rpower 1 y = 1%R.
Proof. unfold Rpower. now rewrite ln_1, Rmult_0_r, exp_0. Qed.

Lemma Rpower_inverse (a g : R) :
  (0 < a)%R -> g <> 0%R -> Rpower (Rpower a g) (1 / g) = a.
Proof.
  intros Ha Hg. rewrite Rpower_mult.
  replace (g * (1 / g))%R with 1%R by (field; exact Hg).
  now apply Rpower_1.
Qed.



Lemma product_bounds (p q r s : R) :
  (0 <= p <= q)%R -> (0 <= r <= s)%R -> (p * r <= q * s)%R.
Proof. intros Hp Hr. apply Rmult_le_compat; lra. Qed.











(** C10: for every image with entries in [0, 1] and every [gamma > 0],
    [gamma_correction] returns an image of the same shape, every entry of
    which is the power of the input entry, nothing clipped, and lies in
    [0, 1]. *)
Theorem gamma_correction_within (H W C : nat) (image : list (list (list f64)))
    (gamma : R) :
  (0 < gamma)%R -> has_shape3 H W C image -> all3 (within 0 1) image ->
  exists out,
    gamma_correction image gamma = Ok out /\
    has_shape3 H W C out /\
    all3 (within 0 1) out /\
    forall i j k, i < H -> j < W -> k < C ->
      get3 (Fin 0) out i j k = np_power (get3 (Fin 0) image i j k) gamma.
Proof.
  intros Hg Hs Hw. exists (map3 (fun x => np_power x gamma) image).
  split; [reflexivity|]. split; [now apply map3_shape|]. split.
  - apply (@all3_map3 _ _ _ (within 0 1)); [|exact Hw].
    intros x Hx. now apply np_power_within.
  - intros i j k Bi Bj Bk. now apply (@get3_powers H W C).
Qed.

Lemma gamma_correction_within_witness :
  exists out,
    gamma_correction [[[Fin (1 / 2); Fin 0; Fin 1]]] (1 / 2) = Ok out /\
    has_shape3 1 1 3 out /\
    all3 (within 0 1) out /\
    forall i j k, i < 1 -> j < 1 -> k < 3 ->
      get3 (Fin 0) out i j k =
      np_power (get3 (Fin 0) [[[Fin (1 / 2); Fin 0; Fin 1]]] i j k) (1 / 2).
Proof.
  apply (@gamma_correction_within 1 1 3 [[[Fin (1 / 2); Fin 0; Fin 1]]] (1 / 2)).
  - lra.
  - split; [reflexivity | repeat constructor].
  - repeat constructor; simpl; lra.
Defined.

(** ** The 4 x 4 array of halves *)

Lemma red_blue_interpolation_values :
  red_blue_interpolation =
  [[Fin (1 / 4); Fin (2 / 4); Fin (1 / 4)];
   [Fin (2 / 4); Fin (4 / 4); Fin (2 / 4)];
   [Fin (1 / 4); Fin (2 / 4); Fin (1 / 4)]].
Proof.
  unfold red_blue_interpolation, over4, of_int. cbn [map].
  now rewrite !fdiv_finite by lra.
Qed.

Lemma green_interpolation_values :
  green_interpolation =
  [[Fin (0 / 4); Fin (1 / 4); Fin (0 / 4)];
   [Fin (1 / 4); Fin (4 / 4); Fin (1 / 4)];
   [Fin (0 / 4); Fin (1 / 4); Fin (0 / 4)]].
Proof.
  unfold green_interpolation, over4, of_int. cbn [map].
  now rewrite !fdiv_finite by lra.
Qed.

Lemma sensor4_shape : has_shape 4 4 sensor4.
Proof. split; [reflexivity | repeat constructor]. Qed.

Lemma demosaic_sensor4 : demosaic sensor4 = Ok (stacked 4 4 sensor4).
Proof. apply demosaic_value; [reflexivity | reflexivity | apply sensor4_shape]. Qed.

(** Away from the edge the interpolation of the constant field is the
    constant. *)
Lemma interior_values (i j k : nat) :
  1 <= i <= 2 -> 1 <= j <= 2 -> k < 3 ->
  get2 (Fin 0) (interpolated 4 4 sensor4 k) i j = Fin (1 / 2).
Proof.
  intros Hi Hj Hk.
  assert (Ci : i = 1 \/ i = 2) by lia. assert (Cj : j = 1 \/ j = 2) by lia.
  destruct k as [|[|[|k]]]; [| | |lia]; unfold interpolated;
    rewrite ?red_blue_interpolation_values, ?green_interpolation_values;
    destruct Ci as [-> | ->]; destruct Cj as [-> | ->];
    cbv -[IZR Rdiv Rplus Rmult Rinv Ropp]; f_equal; lra.
Qed.

(** At the corner the reflected border counts the red sample four times. *)
Lemma corner_value :
  get2 (Fin 0) (interpolated 4 4 sensor4 0) 0 0 = Fin (9 / 8).
Proof.
  unfold interpolated. rewrite red_blue_interpolation_values.
  cbv -[IZR Rdiv Rplus Rmult Rinv Ropp]. f_equal. lra.
Qed.

Lemma sqrt_half_approx :
  (Rabs (Rpower (1 / 2) (1 / 2) - 7071 / 10000) < 1 / 10000)%R.
Proof.
  replace (Rpower (1 / 2) (1 / 2)) with (sqrt (1 / 2)).
  - pose proof (sqrt_pos (1 / 2)) as Hpos.
    pose proof (sqrt_sqrt (1 / 2) ltac:(lra)) as Hsq.
    set (s := sqrt (1 / 2)) in *.
    apply Rabs_def1; nra.
  - symmetry. replace (1 / 2)%R with (/ 2)%R at 2 by lra.
    apply Rpower_sqrt. lra.
Qed.

Lemma ones_nth (k : nat) : k < 3 -> nth k [Fin 1; Fin 1; Fin 1] (Fin 0) = Fin 1.
Proof. intros Hk. destruct k as [|[|[|k]]]; [reflexivity | reflexivity | reflexivity | lia]. Qed.

(** C8, as amended: for the 4 x 4 sensor array of halves, [demosaic] gives
    an image whose three channels are 0.5 at the pixels away from the edge;
    [white_balance] with gains (1, 1, 1) leaves those pixels unchanged; and
    [gamma_correction] with gamma 0.5 then makes each of them the square
    root of 0.5, within 0.0001 of 0.7071. *)
Theorem constant_field_scenario :
  exists demosaiced while_balanced gamma_corrected,
    demosaic sensor4 = Ok demosaiced /\
    white_balance demosaiced (RefList [Fin 1; Fin 1; Fin 1]) = Ok while_balanced /\
    gamma_correction while_balanced (1 / 2) = Ok gamma_corrected /\
    forall i j k, 1 <= i <= 2 -> 1 <= j <= 2 -> k < 3 ->
      get3 (Fin 0) demosaiced i j k = Fin (1 / 2) /\
      get3 (Fin 0) while_balanced i j k = get3 (Fin 0) demosaiced i j k /\
      exists y, get3 (Fin 0) gamma_corrected i j k = Fin y /\
                (Rabs (y - 7071 / 10000) < 1 / 10000)%R.
Proof.
  pose proof (stacked_shape 4 4 sensor4) as Hs.
  pose proof (@balanced_shape 4 4 (stacked 4 4 sensor4) [Fin 1; Fin 1; Fin 1] Hs) as Hb.
  exists (stacked 4 4 sensor4), (balanced [Fin 1; Fin 1; Fin 1] (stacked 4 4 sensor4)),
    (map3 (fun x => np_power x (1 / 2))
       (balanced [Fin 1; Fin 1; Fin 1] (stacked 4 4 sensor4))).
  split; [exact demosaic_sensor4|].
  split; [exact (@white_balance_with 4 4 _ (RefList [Fin 1; Fin 1; Fin 1]) _
                   Hs eq_refl eq_refl)|].
  split; [reflexivity|].
  intros i j k Hi Hj Hk.
  assert (Ed : get3 (Fin 0) (stacked 4 4 sensor4) i j k = Fin (1 / 2)).
  { rewrite get3_stacked by lia. now apply interior_values. }
  assert (Eb : get3 (Fin 0) (balanced [Fin 1; Fin 1; Fin 1] (stacked 4 4 sensor4)) i j k
               = Fin (1 / 2)).
  { rewrite (@get3_balanced 4 4 _ _ i j k Hs) by lia.
    rewrite Ed, ones_nth by assumption.
    change (fmul (Fin (1 / 2)) (Fin 1)) with (Fin (1 / 2 * 1)).
    replace (1 / 2 * 1)%R with (1 / 2)%R by lra.
    rewrite clip_finite. f_equal. apply clip_inside. lra. }
  split; [exact Ed|]. split; [now rewrite Eb, Ed|].
  exists (Rpower (1 / 2) (1 / 2)). split; [|exact sqrt_half_approx].
  rewrite (@get3_powers 4 4 3 _ (1 / 2) i j k Hb) by lia.
  rewrite Eb. apply np_power_positive; lra.
Qed.

(** C8 as stated fails at the edge: the red channel of the corner pixel is
    1.125 after [demosaic], and [white_balance] with gains (1, 1, 1) clips
    it to 1, so the image is not left unchanged. *)
Lemma constant_field_border_clipped :
  exists demosaiced while_balanced,
    demosaic sensor4 = Ok demosaiced /\
    white_balance demosaiced (RefList [Fin 1; Fin 1; Fin 1]) = Ok while_balanced /\
    get3 (Fin 0) demosaiced 0 0 0 = Fin (9 / 8) /\
    get3 (Fin 0) while_balanced 0 0 0 = Fin 1 /\
    while_balanced <> demosaiced.
Proof.
  pose proof (stacked_shape 4 4 sensor4) as Hs.
  exists (stacked 4 4 sensor4), (balanced [Fin 1; Fin 1; Fin 1] (stacked 4 4 sensor4)).
  assert (Ed : get3 (Fin 0) (stacked 4 4 sensor4) 0 0 0 = Fin (9 / 8)).
  { rewrite get3_stacked by lia. exact corner_value. }
  assert (Eb : get3 (Fin 0) (balanced [Fin 1; Fin 1; Fin 1] (stacked 4 4 sensor4)) 0 0 0
               = Fin 1).
  { rewrite (@get3_balanced 4 4 _ _ 0 0 0 Hs) by lia.
    rewrite Ed. change (fmul (Fin (9 / 8)) (nth 0 [Fin 1; Fin 1; Fin 1] (Fin 0)))
      with (Fin (9 / 8 * 1)).
    rewrite clip_finite. f_equal. apply clip_above. lra. }
  split; [exact demosaic_sensor4|].
  split; [exact (@white_balance_with 4 4 _ (RefList [Fin 1; Fin 1; Fin 1]) _
                   Hs eq_refl eq_refl)|].
  split; [exact Ed|]. split; [exact Eb|].
  intros E. rewrite E, Ed in Eb. injection Eb as Eb. lra.
Qed.

(** ** The three stages in sequence *)

Lemma fmul_finite (x y : f64) : is_finite x -> is_finite y -> is_finite (fmul x y).
Proof. destruct x, y; simpl; tauto. Qed.

Lemma fadd_finite (x y : f64) : is_finite x -> is_finite y -> is_finite (fadd x y).
Proof. destruct x, y; simpl; tauto. Qed.

Lemma fsum_finite (l : list f64) : Forall is_finite l -> is_finite (fsum l).
Proof.
  unfold fsum. assert (Hacc : is_finite (Fin 0)) by exact I.
  revert Hacc. generalize (Fin 0).
  induction l as [|x l IH]; intros acc Hacc Hl; simpl; [exact Hacc|].
  inversion Hl; subst. apply IH; [now apply fadd_finite | assumption].
Qed.

Lemma get2_finite (a : list (list f64)) (i j : nat) :
  all2 is_finite a -> is_finite (get2 (Fin 0) a i j).
Proof.
  intros Ha. unfold get2, all2 in *. rewrite Forall_forall in Ha.
  destruct (nth_in_or_default i a []) as [Hin | ->].
  - specialize (Ha _ Hin). rewrite Forall_forall in Ha.
    destruct (nth_in_or_default j (nth i a []) (Fin 0)) as [Hin' | ->];
      [now apply Ha | exact I].
  - now destruct j.
Qed.

Lemma all2_tabulate2 (A : Type) (P : A -> Prop) (h w : nat) (f : nat -> nat -> A) :
  (forall i j, P (f i j)) -> all2 P (tabulate2 h w f).
Proof.
  intros Hf. unfold all2, tabulate2, tabulate.
  apply Forall_map, Forall_forall. intros i _.
  apply Forall_map, Forall_forall. intros j _. apply Hf.
Qed.

Lemma convolve_finite (input weights : list (list f64)) :
  all2 is_finite input -> all2 is_finite weights ->
  all2 is_finite (convolve input weights).
Proof.
  intros Hi Hw. unfold convolve. destruct (shape input), (shape weights).
  apply all2_tabulate2. intros i j. apply fsum_finite.
  apply Forall_flat_map, Forall_forall. intros a _.
  apply Forall_map, Forall_forall. intros b _.
  apply fmul_finite; now apply get2_finite.
Qed.

Lemma interpolated_finite (H W : nat) (image : list (list f64)) (k : nat) :
  all2 is_finite image -> all2 is_finite (interpolated H W image k).
Proof.
  intros Hi.
  assert (Hm : forall mask, all2 is_finite (masked H W image mask)).
  { intros mask. apply all2_tabulate2. intros i j.
    apply fmul_finite; [now apply get2_finite | exact I]. }
  assert (Hrb : all2 is_finite red_blue_interpolation)
    by (rewrite red_blue_interpolation_values; repeat constructor).
  assert (Hg : all2 is_finite green_interpolation)
    by (rewrite green_interpolation_values; repeat constructor).
  destruct k as [|[|k]]; simpl; now apply convolve_finite.
Qed.

Lemma stacked_finite (H W : nat) (image : list (list f64)) :
  all2 is_finite image -> all3 is_finite (stacked H W image).
Proof.
  intros Hi. unfold all3, stacked, tabulate2, tabulate.
  apply Forall_map, Forall_forall. intros i _.
  apply Forall_map, Forall_forall. intros j _.
  repeat constructor; apply get2_finite; now apply interpolated_finite.
Qed.

(** On a sensor array of even sides holding numbers, with three finite gains
    and [gamma > 0], the three stages in sequence return an image of shape
    [H x W x 3] with every entry in [0, 1]: the clip of [white_balance]
    bounds the entries and the power keeps them there. *)
Lemma decode_within (H W : nat) (rescaled : list (list f64)) (g0 g1 g2 gamma : R) :
  Nat.even H = true -> Nat.even W = true -> has_shape H W rescaled ->
  all2 is_finite rescaled -> (0 < gamma)%R ->
  exists out,
    decode rescaled (RefList [Fin g0; Fin g1; Fin g2]) gamma = Ok out /\
    has_shape3 H W 3 out /\
    all3 (within 0 1) out.
Proof.
  intros HH HW Hs Hfin Hg.
  pose proof (stacked_shape H W rescaled) as Hs3.
  exists (map3 (fun x => np_power x gamma)
            (balanced [Fin g0; Fin g1; Fin g2] (stacked H W rescaled))).
  split; [|split].
  - unfold decode. rewrite (demosaic_value HH HW Hs). unfold bind at 1.
    rewrite (@white_balance_with H W _ (RefList [Fin g0; Fin g1; Fin g2]) _
               Hs3 eq_refl eq_refl).
    reflexivity.
  - now apply map3_shape, balanced_shape.
  - apply (@all3_map3 _ _ _ (within 0 1)).
    + intros x Hx. now apply np_power_within.
    + apply (balanced_within Hs3); [now apply stacked_finite | repeat constructor | reflexivity].
Qed.

(** ** [demosaic] on a sensor array with an odd side *)

Lemma shape_as_float (mask : list (list Z)) : shape (as_float mask) = shape mask.
Proof.
  unfold shape, as_float. rewrite length_map.
  destruct mask as [|row rest]; simpl; [reflexivity | now rewrite length_map].
Qed.

Lemma shape_tabulate2 (A : Type) (h w : nat) (f : nat -> nat -> A) :
  shape (tabulate2 h w f) = (h, if (h =? 0)%nat then 0 else w).
Proof.
  destruct (shape_cases (tabulate2_shape h w f)) as [E | [-> E]].
  - rewrite E. destruct h; [|reflexivity].
    unfold shape, tabulate2, tabulate in E. simpl in E. now inversion E.
  - reflexivity.
Qed.

Lemma shape_mask (unit : list (list Z)) (m n : nat) :
  has_shape 2 2 unit ->
  shape (as_float (repmat unit m n)) = (2 * m, if (m =? 0)%nat then 0 else 2 * n).
Proof.
  intros Hu. rewrite shape_as_float.
  destruct (shape_cases (@repmat_shape _ unit 2 2 m n Hu)) as [E | [Hm E]].
  - rewrite E. destruct m; simpl.
    + unfold repmat in E. simpl in E. unfold shape in E. simpl in E. now inversion E.
    + f_equal; lia.
  - rewrite E. assert (m = 0) by lia. subst m. reflexivity.
Qed.

Lemma shape_zeros3 (h w c : nat) :
  0 < h -> shape (zeros3 h w c) = (h, w).
Proof.
  intros Hh. destruct (shape_cases (has_shape3_rows (zeros3_shape h w c))) as [E | [E _]];
    [exact E | lia].
Qed.

Ltac decide_eqb :=
  repeat match goal with
         | |- context [(?a =? ?b)%nat] =>
             lazymatch a with
             | context [if _ then _ else _] => fail
             | _ => idtac
             end;
             destruct (Nat.eqb_spec a b); try lia
         end.

(** The first pass of the visualisation loop already fails when a side of
    the array is odd: either the array and the red mask do not broadcast,
    or their product does not fit the channel it is stored in. *)
Lemma save_channels_odd (H W : nat) (image : list (list f64))
    (green blue : list (list Z)) :
  has_shape H W image -> 0 < H ->
  Nat.odd H = true \/ Nat.odd W = true ->
  save_channels image H W 0 [red_mask H W; green; blue] = Raise ValueError.
Proof.
  intros Hs HH Hodd.
  destruct (shape_cases Hs) as [Es | [E0 _]]; [|lia].
  destruct filter_shapes as (Hr & _ & _).
  assert (Em : shape (as_float (red_mask H W)) =
               (2 * (H / 2), if (H / 2 =? 0)%nat then 0 else 2 * (W / 2)))
    by (apply shape_mask, Hr).
  pose proof (Nat.div_mod_eq H 2) as DH. pose proof (Nat.div_mod_eq W 2) as DW.
  pose proof (Nat.mod_upper_bound H 2 ltac:(lia)) as BH.
  pose proof (Nat.mod_upper_bound W 2 ltac:(lia)) as BW.
  assert (Hodd' : H mod 2 = 1 \/ W mod 2 = 1).
  { destruct Hodd as [O | O]; [left | right];
      apply Nat.odd_spec in O; destruct O as [p ->];
      rewrite Nat.add_comm, Nat.mul_comm, Nat.Div0.mod_add; reflexivity. }
  clear Hodd.
  cbn [save_channels]. unfold np_mul2. rewrite Es, Em. unfold bdim.
  set (m := H / 2) in *. set (n := W / 2) in *.
  destruct (Nat.eqb_spec H (2 * m)) as [EH | NH].
  - (* even height, so the width is odd *)
    assert (m <> 0) by lia. destruct (Nat.eqb_spec m 0) as [|_]; [lia|].
    destruct (Nat.eqb_spec W (2 * n)) as [|_]; [lia|].
    destruct (Nat.eqb_spec W 1) as [W1 | _].
    + unfold bind at 1 2 3. unfold set_channel.
      rewrite shape_tabulate2, shape_zeros3 by lia.
      decide_eqb; reflexivity.
    + destruct (Nat.eqb_spec (2 * n) 1) as [|_]; [lia | reflexivity].
  - destruct (Nat.eqb_spec H 1) as [H1 | _].
    + (* a single row: the mask is empty *)
      assert (m = 0) by lia. destruct (Nat.eqb_spec m 0) as [_|]; [|lia].
      unfold bind at 1 2.
      destruct (Nat.eqb_spec W 0) as [W0 | _];
        [|destruct (Nat.eqb_spec W 1) as [W1 | _];
          [|destruct (Nat.eqb_spec 0 1) as [|_]; [lia | reflexivity]]];
        unfold bind at 1 2; unfold set_channel;
        rewrite shape_tabulate2, shape_zeros3 by lia; decide_eqb; reflexivity.
    + destruct (Nat.eqb_spec (2 * m) 1) as [|_]; [lia | reflexivity].
Qed.

(** X1: on a non-empty sensor array with an odd height or an odd width
    [demosaic] raises ValueError and returns no image. *)
Theorem demosaic_odd_raises (H W : nat) (image : list (list f64)) :
  has_shape H W image -> 0 < H ->
  Nat.odd H = true \/ Nat.odd W = true ->
  demosaic image = Raise ValueError.
Proof.
  intros Hs HH Hodd.
  destruct (shape_cases Hs) as [Es | [E0 _]]; [|lia].
  unfold demosaic. rewrite Es. cbv zeta.
  now rewrite (save_channels_odd _ _ Hs HH Hodd).
Qed.

Lemma demosaic_odd_raises_witness :
  demosaic [[Fin 1; Fin 2; Fin 3]; [Fin 4; Fin 5; Fin 6]] = Raise ValueError.
Proof.
  apply (@demosaic_odd_raises 2 3); [split; [reflexivity | repeat constructor] | lia |].
  right. reflexivity.
Defined.

(** ** [demosaic] away from the border *)

Lemma reflect_shift (n i a : nat) :
  a <= i + 1 -> i + 1 - a < n ->
  reflect n (Z.of_nat i + Z.of_nat (3 / 2) - Z.of_nat a) = i + 1 - a.
Proof.
  intros Ha Hn. unfold reflect. change (3 / 2) with 1.
  rewrite Z.mod_small by lia.
  destruct (Z.ltb_spec (Z.of_nat i + Z.of_nat 1 - Z.of_nat a) (Z.of_nat n)); lia.
Qed.

(** The convolution with a 3 x 3 kernel at a pixel whose neighbours are all
    inside the array. *)
Lemma convolve_interior (h w : nat) (input weights : list (list f64)) (i j : nat) :
  has_shape h w input -> shape weights = (3, 3) ->
  1 <= i -> i + 1 < h -> 1 <= j -> j + 1 < w ->
  get2 (Fin 0) (convolve input weights) i j =
  fsum (flat_map (fun a =>
          map (fun b => fmul (get2 (Fin 0) weights a b)
                             (get2 (Fin 0) input (i + 1 - a) (j + 1 - b)))
              (seq 0 3))
          (seq 0 3)).
Proof.
  intros Hs Hk Hi Hi' Hj Hj'. unfold convolve.
  destruct (shape_cases Hs) as [-> | [E0 _]]; [|lia].
  rewrite Hk, get2_tabulate2 by lia.
  cbn [seq flat_map map app].
  now rewrite !reflect_shift by lia.
Qed.

Lemma masked_at (H W : nat) (image : list (list f64)) (mask : list (list Z))
    (x y : nat) :
  x < H -> y < W ->
  get2 (Fin 0) (masked H W image mask) x y =
  fmul (get2 (Fin 0) image x y) (of_int (get2 0%Z mask x y)).
Proof. intros Hx Hy. unfold masked. now rewrite get2_tabulate2. Qed.

Lemma get2_sample (image : list (list f64)) (x y : nat) :
  all2 is_finite image -> get2 (Fin 0) image x y = Fin (sample image x y).
Proof.
  intros Hf. pose proof (get2_finite x y Hf) as F. unfold sample.
  destruct (get2 (Fin 0) image x y); try contradiction. reflexivity.
Qed.

(** One interpolated channel at an interior pixel, as a sum over the nine
    samples around it: each enters with its kernel weight when the mask of
    the channel holds 1 at its position, and not at all otherwise. *)
Lemma interior_channel (H W : nat) (image : list (list f64)) (unit : list (list Z))
    (K : list (list f64)) (i j : nat) :
  Nat.even H = true -> Nat.even W = true ->
  has_shape H W image -> all2 is_finite image ->
  has_shape 2 2 unit -> shape K = (3, 3) ->
  1 <= i -> i + 1 < H -> 1 <= j -> j + 1 < W ->
  get2 (Fin 0) (convolve (masked H W image (repmat unit (H / 2) (W / 2))) K) i j =
  fsum (flat_map (fun a =>
          map (fun b =>
                 fmul (get2 (Fin 0) K a b)
                      (Fin (sample image (i + 1 - a) (j + 1 - b) *
                            IZR (get2 0%Z unit ((i + 1 - a) mod 2) ((j + 1 - b) mod 2)))))
              (seq 0 3))
          (seq 0 3)).
Proof.
  intros HH HW Hs Hf Hu HK Hi Hi' Hj Hj'.
  rewrite (@convolve_interior H W _ K i j (masked_shape H W image _) HK) by lia.
  cbn [seq flat_map map app].
  rewrite !masked_at by lia.
  rewrite !(get2_sample _ _ Hf).
  rewrite !(@mask_at unit H W _ _ Hu HH HW) by lia.
  reflexivity.
Qed.

Lemma parity_cases (i : nat) :
  1 <= i ->
  (i mod 2 = 0 /\ (i + 1 - 0) mod 2 = 1 /\ (i + 1 - 1) mod 2 = 0 /\ (i + 1 - 2) mod 2 = 1) \/
  (i mod 2 = 1 /\ (i + 1 - 0) mod 2 = 0 /\ (i + 1 - 1) mod 2 = 1 /\ (i + 1 - 2) mod 2 = 0).
Proof.
  intros Hi.
  pose proof (Nat.mod_upper_bound i 2 ltac:(lia)) as B.
  pose proof (Nat.div_mod_eq i 2) as D.
  assert (C : i mod 2 = 0 \/ i mod 2 = 1) by lia.
  destruct C as [C | C]; [left | right]; rewrite C in D; (split; [exact C|]).
  - replace (i + 1 - 0) with (1 + (i / 2) * 2) by lia.
    replace (i + 1 - 1) with (0 + (i / 2) * 2) by lia.
    replace (i + 1 - 2) with (1 + (i / 2 - 1) * 2) by lia.
    now rewrite !Nat.Div0.mod_add.
  - replace (i + 1 - 0) with (0 + (i / 2 + 1) * 2) by lia.
    replace (i + 1 - 1) with (1 + (i / 2) * 2) by lia.
    replace (i + 1 - 2) with (0 + (i / 2) * 2) by lia.
    now rewrite !Nat.Div0.mod_add.
Qed.

Ltac interior_sum Hf :=
  cbn [seq flat_map map app];
  repeat match goal with
         | E : (_ + 1 - _) mod 2 = _ |- _ => rewrite E; clear E
         end;
  unfold red_filter, green_filter, blue_filter;
  cbn [get2 nth fsum fold_left fadd fmul];
  repeat match goal with
         | |- context [?x + 1 - 0] => replace (x + 1 - 0) with (x + 1) by lia
         | |- context [?x + 1 - 1] => replace (x + 1 - 1) with x by lia
         | |- context [?x + 1 - 2] => replace (x + 1 - 2) with (x - 1) by lia
         end.

(** Away from the border each channel [demosaic] interpolates is the
    bilinear interpolation of the samples. *)
Lemma interpolated_bilinear (H W : nat) (image : list (list f64)) (i j k : nat) :
  Nat.even H = true -> Nat.even W = true ->
  has_shape H W image -> all2 is_finite image ->
  1 <= i -> i + 1 < H -> 1 <= j -> j + 1 < W -> k < 3 ->
  get2 (Fin 0) (interpolated H W image k) i j =
  Fin (bilinear (sample image) i j k).
Proof.
  intros HH HW Hs Hf Hi Hi' Hj Hj' Hk.
  destruct filter_shapes as (Hr & Hg & Hb).
  unfold bilinear.
  destruct k as [|[|[|k]]]; [| | |lia];
    unfold interpolated, red_mask, green_mask, blue_mask;
    rewrite ?red_blue_interpolation_values, ?green_interpolation_values;
    rewrite interior_channel by first [assumption | reflexivity | lia];
    destruct (parity_cases Hi) as [(Qi & Pi0 & Pi1 & Pi2) | (Qi & Pi0 & Pi1 & Pi2)];
    destruct (parity_cases Hj) as [(Qj & Pj0 & Pj1 & Pj2) | (Qj & Pj0 & Pj1 & Pj2)];
    rewrite Qi, Qj; interior_sum Hf; f_equal; lra.
Qed.

(** X2: on a sensor array of numbers with even sides, away from the border,
    each channel of the image [demosaic] returns is the bilinear
    interpolation of the samples: the sample itself where the sensor
    measured that colour, the mean of the two or four nearest samples of
    that colour elsewhere. *)
Theorem demosaic_bilinear (H W : nat) (image : list (list f64)) (i j k : nat) :
  Nat.even H = true -> Nat.even W = true ->
  has_shape H W image -> all2 is_finite image ->
  1 <= i -> i + 1 < H -> 1 <= j -> j + 1 < W -> k < 3 ->
  exists out,
    demosaic image = Ok out /\
    get3 (Fin 0) out i j k = Fin (bilinear (sample image) i j k).
Proof.
  intros HH HW Hs Hf Hi Hi' Hj Hj' Hk. exists (stacked H W image).
  split; [now apply demosaic_value|].
  rewrite get3_stacked by lia. now apply interpolated_bilinear.
Qed.

Lemma demosaic_bilinear_witness :
  exists out,
    demosaic sensor4 = Ok out /\
    get3 (Fin 0) out 1 2 0 = Fin (bilinear (sample sensor4) 1 2 0).
Proof.
  apply (@demosaic_bilinear 4 4 sensor4 1 2 0);
    first [reflexivity | lia | apply sensor4_shape | idtac].
  repeat constructor.
Defined.

(** X3: away from the border, the channel whose mask holds a nonzero at a
    pixel keeps the sample of the sensor at that pixel: interpolation never
    alters a measured value. *)
Theorem demosaic_keeps_samples (H W : nat) (image : list (list f64)) (i j k : nat) :
  Nat.even H = true -> Nat.even W = true ->
  has_shape H W image -> all2 is_finite image ->
  1 <= i -> i + 1 < H -> 1 <= j -> j + 1 < W -> k < 3 ->
  nonzero (mask_of k H W) i j = true ->
  exists out,
    demosaic image = Ok out /\
    get3 (Fin 0) out i j k = get2 (Fin 0) image i j.
Proof.
  intros HH HW Hs Hf Hi Hi' Hj Hj' Hk Hnz. exists (stacked H W image).
  split; [now apply demosaic_value|].
  rewrite get3_stacked by lia.
  rewrite interpolated_bilinear by assumption.
  rewrite (get2_sample i j Hf). f_equal.
  destruct filter_shapes as (Hr & Hg & Hb).
  pose proof (Nat.mod_upper_bound i 2 ltac:(lia)) as Bi.
  pose proof (Nat.mod_upper_bound j 2 ltac:(lia)) as Bj.
  unfold nonzero, mask_of, red_mask, green_mask, blue_mask in Hnz.
  unfold bilinear.
  destruct k as [|[|[|k]]]; [| | |lia];
    rewrite mask_at in Hnz by (assumption || lia);
    destruct (i mod 2) as [|[|?]]; try lia;
    destruct (j mod 2) as [|[|?]]; try lia;
    try discriminate Hnz; reflexivity.
Qed.

Lemma demosaic_keeps_samples_witness :
  exists out,
    demosaic sensor4 = Ok out /\
    get3 (Fin 0) out 1 2 1 = get2 (Fin 0) sensor4 1 2.
Proof.
  apply (@demosaic_keeps_samples 4 4 sensor4 1 2 1);
    first [reflexivity | lia | apply sensor4_shape | idtac].
  repeat constructor.
Defined.

(** X4: away from the border, every channel of a pixel lies between the
    smallest and the largest of the nine samples around it; a field that is
    constant there is reproduced in all three channels. *)
Theorem demosaic_interior_range (H W : nat) (image : list (list f64))
    (i j k : nat) (lo hi : R) :
  Nat.even H = true -> Nat.even W = true ->
  has_shape H W image -> all2 is_finite image ->
  1 <= i -> i + 1 < H -> 1 <= j -> j + 1 < W -> k < 3 ->
  (forall x y, i - 1 <= x <= i + 1 -> j - 1 <= y <= j + 1 ->
     (lo <= sample image x y <= hi)%R) ->
  exists out,
    demosaic image = Ok out /\
    within lo hi (get3 (Fin 0) out i j k).
Proof.
  intros HH HW Hs Hf Hi Hi' Hj Hj' Hk Hb. exists (stacked H W image).
  split; [now apply demosaic_value|].
  rewrite get3_stacked by lia.
  rewrite interpolated_bilinear by assumption.
  pose proof (Hb (i - 1) (j - 1) ltac:(lia) ltac:(lia)).
  pose proof (Hb (i - 1) j ltac:(lia) ltac:(lia)).
  pose proof (Hb (i - 1) (j + 1) ltac:(lia) ltac:(lia)).
  pose proof (Hb i (j - 1) ltac:(lia) ltac:(lia)).
  pose proof (Hb i j ltac:(lia) ltac:(lia)).
  pose proof (Hb i (j + 1) ltac:(lia) ltac:(lia)).
  pose proof (Hb (i + 1) (j - 1) ltac:(lia) ltac:(lia)).
  pose proof (Hb (i + 1) j ltac:(lia) ltac:(lia)).
  pose proof (Hb (i + 1) (j + 1) ltac:(lia) ltac:(lia)).
  unfold within, bilinear.
  destruct (i mod 2) as [|?]; destruct (j mod 2) as [|?];
    destruct k as [|[|?]]; cbv zeta; lra.
Qed.

Lemma demosaic_interior_range_witness :
  exists out,
    demosaic sensor4 = Ok out /\
    within (1 / 2) (1 / 2) (get3 (Fin 0) out 2 1 2).
Proof.
  apply (@demosaic_interior_range 4 4 sensor4 2 1 2 (1 / 2) (1 / 2));
    first [reflexivity | lia | apply sensor4_shape | idtac].
  - repeat constructor.
  - intros x y Hx Hy.
    assert (Cx : x = 1 \/ x = 2 \/ x = 3) by lia.
    assert (Cy : y = 0 \/ y = 1 \/ y = 2) by lia.
    destruct Cx as [-> | [-> | ->]]; destruct Cy as [-> | [-> | ->]];
      unfold sample; simpl; lra.
Defined.

(** ** The list of gains of [white_balance] *)

Lemma mul_pixel_bad_count (gains px : list f64) :
  length px = 3 -> length gains <> 1 -> length gains <> 3 ->
  mul_pixel gains px = Raise ValueError.
Proof.
  intros Hp N1 N3. unfold mul_pixel, bdim. rewrite Hp.
  destruct (Nat.eqb_spec 3 (length gains)); [congruence|].
  destruct (Nat.eqb_spec (length gains) 1); [contradiction | reflexivity].
Qed.

Lemma first_pixel (H W C : nat) (image : list (list (list f64))) :
  has_shape3 H W C image -> 0 < H -> 0 < W ->
  exists px row rows, image = (px :: row) :: rows /\ length px = C.
Proof.
  intros [Hh Hrows] HH HW.
  destruct image as [|r rows]; [simpl in Hh; lia|].
  inversion Hrows as [|? ? Hr _]; subst. destruct Hr as [Hw Hpx].
  destruct r as [|px row]; [simpl in Hw; lia|].
  inversion Hpx; subst. now exists px, row, rows.
Qed.

(** X5: on a non-empty image of three channels, a list of gains of a
    length other than 1 and 3 makes [white_balance] raise ValueError. *)
Theorem white_balance_gain_count (H W : nat) (image : list (list (list f64)))
    (gains : list f64) :
  has_shape3 H W 3 image -> 0 < H -> 0 < W ->
  length gains <> 1 -> length gains <> 3 ->
  white_balance image (RefList gains) = Raise ValueError.
Proof.
  intros Hs HH HW N1 N3.
  destruct (first_pixel Hs HH HW) as (px & row & rows & -> & Hp).
  unfold white_balance, reference_of, np_mul3. unfold bind at 1.
  cbn [mapM]. now rewrite (@mul_pixel_bad_count gains px Hp N1 N3).
Qed.

Lemma white_balance_gain_count_witness :
  white_balance [[[Fin 1; Fin 1; Fin 1]]] (RefList [Fin 2; Fin 2]) = Raise ValueError.
Proof.
  apply (@white_balance_gain_count 1 1); try lia; try (simpl; lia).
  split; [reflexivity | repeat constructor].
Defined.

Lemma mul_pixel_single (g : f64) (px : list f64) :
  length px = 3 -> mul_pixel [g] px = mul_pixel [g; g; g] px.
Proof.
  intros Hp. unfold mul_pixel, bidx. rewrite Hp. reflexivity.
Qed.

Lemma mapM_ext (A B : Type) (f g : A -> result B) (l : list A) :
  Forall (fun x => f x = g x) l -> mapM f l = mapM g l.
Proof.
  induction 1 as [|x l Hx _ IH]; simpl; [reflexivity|]. now rewrite Hx, IH.
Qed.

(** X6: a list of one gain is applied to all three channels: the image
    returned is the one returned for that gain given three times. *)
Theorem white_balance_single_gain (H W : nat) (image : list (list (list f64)))
    (g : f64) :
  has_shape3 H W 3 image ->
  white_balance image (RefList [g]) = white_balance image (RefList [g; g; g]).
Proof.
  intros [_ Hrows]. unfold white_balance, reference_of. unfold bind at 1 3.
  assert (E : np_mul3 image [g] = np_mul3 image [g; g; g]).
  { unfold np_mul3. apply mapM_ext. eapply Forall_impl; [|exact Hrows].
    intros row [_ Hpx]. apply mapM_ext. eapply Forall_impl; [|exact Hpx].
    intros px Hp. now apply mul_pixel_single. }
  now rewrite E.
Qed.

Lemma white_balance_single_gain_witness :
  white_balance [[[Fin 1; Fin 3; Fin 5]]] (RefList [Fin 2]) =
  white_balance [[[Fin 1; Fin 3; Fin 5]]] (RefList [Fin 2; Fin 2; Fin 2]).
Proof.
  apply (@white_balance_single_gain 1 1).
  split; [reflexivity | repeat constructor].
Defined.

Lemma map2_id (A : Type) (f : A -> A) (a : list (list A)) :
  Forall (Forall (fun x => f x = x)) a -> map (map f) a = a.
Proof.
  induction 1 as [|row rows Hrow _ IH]; simpl; [reflexivity|]. f_equal; [|exact IH].
  induction Hrow as [|x xs Hx _ IHr]; simpl; [reflexivity|]. now rewrite Hx, IHr.
Qed.

(** X7: with the gains (1, 1, 1), [white_balance] returns an image whose
    entries lie in [0, 1] as it received it. *)
Theorem white_balance_unit_gains (H W : nat) (image : list (list (list f64))) :
  has_shape3 H W 3 image -> all3 (within 0 1) image ->
  white_balance image (RefList [Fin 1; Fin 1; Fin 1]) = Ok image.
Proof.
  intros Hs Hw.
  rewrite (@white_balance_with H W image (RefList [Fin 1; Fin 1; Fin 1])
             [Fin 1; Fin 1; Fin 1] Hs eq_refl eq_refl).
  f_equal. unfold balanced, map3. rewrite map2_map2. apply map2_id.
  destruct Hs as [_ Hrows]. unfold all3 in Hw.
  rewrite Forall_forall in *. intros row Hrow.
  specialize (Hrows _ Hrow). specialize (Hw _ Hrow). destruct Hrows as [_ Hpx].
  rewrite Forall_forall in *. intros px Hin.
  specialize (Hpx _ Hin). specialize (Hw _ Hin). cbv beta in Hpx.
  destruct px as [|a [|b [|c [|? ?]]]]; try discriminate Hpx.
  inversion Hw as [|? ? Ha Hw1]; subst. inversion Hw1 as [|? ? Hb' Hw2]; subst.
  inversion Hw2 as [|? ? Hc' _]; subst.
  destruct a as [a| | |], b as [b| | |], c as [c| | |]; try contradiction.
  simpl in Ha, Hb', Hc'.
  unfold scaled_pixel, tabulate. cbn [seq map nth fmul].
  rewrite !clip_finite, !Rmult_1_r, !clip_inside by assumption. reflexivity.
Qed.

Lemma white_balance_unit_gains_witness :
  white_balance [[[Fin (1 / 2); Fin 0; Fin 1]]] (RefList [Fin 1; Fin 1; Fin 1]) =
  Ok [[[Fin (1 / 2); Fin 0; Fin 1]]].
Proof.
  apply (@white_balance_unit_gains 1 1).
  - split; [reflexivity | repeat constructor].
  - repeat constructor; simpl; lra.
Defined.

(** ** More on [gamma_correction] *)

Lemma Int_part_one : Int_part 1 = 1%Z.
Proof. symmetry. apply Int_part_spec. simpl. lra. Qed.

Lemma np_power_one (x : f64) : np_power x 1 = x.
Proof.
  unfold np_power, is_odd_integer, is_integer. rewrite Int_part_one.
  destruct (Req_dec_T 1 0); [lra|].
  destruct (Req_dec_T (IZR 1) 1) as [_|N]; [|now elim N].
  destruct (Rlt_dec 0 1); [|lra].
  destruct x as [a| | |]; try reflexivity.
  destruct (Rlt_dec 0 a).
  - now rewrite Rpower_1.
  - destruct (Req_dec_T a 0) as [-> | Na]; [reflexivity|].
    simpl. rewrite Rpower_1 by lra. f_equal. lra.
Qed.

Lemma map3_ext_all (A B : Type) (f g : A -> B) (P : A -> Prop)
    (a : list (list (list A))) :
  (forall x, P x -> f x = g x) -> all3 P a -> map3 f a = map3 g a.
Proof.
  intros E Ha. unfold all3, map3 in *.
  induction Ha as [|row rows Hrow _ IH]; simpl; [reflexivity|]. f_equal; [|exact IH].
  induction Hrow as [|px pxs Hpx _ IHr]; simpl; [reflexivity|]. f_equal; [|exact IHr].
  induction Hpx as [|x xs Hx _ IHp]; simpl; [reflexivity|]. f_equal; [|exact IHp].
  now apply E.
Qed.

(** X9: with [gamma = 1], [gamma_correction] returns every image as it
    received it, whatever its entries. *)
Theorem gamma_correction_one (image : list (list (list f64))) :
  gamma_correction image 1 = Ok image.
Proof.
  unfold gamma_correction. f_equal.
  transitivity (map3 (fun x : f64 => x) image).
  - apply (@map3_ext_all _ _ _ _ (fun _ => True)).
    + intros x _. apply np_power_one.
    + unfold all3. apply Forall_forall. intros row _. apply Forall_forall.
      intros px _. apply Forall_forall. trivial.
  - unfold map3. rewrite <- (map_id image) at 2. apply map_ext. intros row.
    rewrite <- (map_id row) at 2. apply map_ext. intros px. apply map_id.
Qed.

(** X10: on an image with entries in [0, 1], [gamma_correction] with
    [0 < gamma <= 1] makes no entry smaller, and with [gamma >= 1] makes no
    entry larger. *)
Theorem gamma_correction_brightens (H W C : nat) (image : list (list (list f64)))
    (gamma : R) (i j k : nat) :
  (0 < gamma)%R -> has_shape3 H W C image -> all3 (within 0 1) image ->
  i < H -> j < W -> k < C ->
  exists out a b,
    gamma_correction image gamma = Ok out /\
    get3 (Fin 0) image i j k = Fin a /\
    get3 (Fin 0) out i j k = Fin b /\
    ((gamma <= 1)%R -> (a <= b)%R) /\
    ((1 <= gamma)%R -> (b <= a)%R).
Proof.
  intros Hg Hs Hw Hi Hj Hk.
  pose proof (@all3_get3 _ (within 0 1) (Fin 0) H W C image i j k Hs Hw Hi Hj Hk) as Hx.
  exists (map3 (fun x => np_power x gamma) image).
  destruct (get3 (Fin 0) image i j k) as [a| | |] eqn:Ea; try contradiction.
  simpl in Hx.
  assert (Eo : get3 (Fin 0) (map3 (fun x => np_power x gamma) image) i j k =
               np_power (Fin a) gamma).
  { rewrite (@get3_powers H W C image gamma i j k Hs Hi Hj Hk). now rewrite Ea. }
  destruct (Rle_lt_or_eq_dec _ _ (proj1 Hx)) as [Hpos | <-].
  - exists a, (Rpower a gamma). split; [reflexivity|]. split; [reflexivity|].
    split; [rewrite Eo; apply np_power_positive; lra|].
    apply Rpower_exponent. lra.
  - exists 0%R, 0%R. split; [reflexivity|]. split; [reflexivity|].
    split; [rewrite Eo; now apply np_power_zero_base|]. split; lra.
Qed.

Lemma gamma_correction_brightens_witness :
  exists out a b,
    gamma_correction [[[Fin (1 / 4); Fin 0; Fin 1]]] (1 / 2) = Ok out /\
    get3 (Fin 0) [[[Fin (1 / 4); Fin 0; Fin 1]]] 0 0 0 = Fin a /\
    get3 (Fin 0) out 0 0 0 = Fin b /\
    ((1 / 2 <= 1)%R -> (a <= b)%R) /\
    ((1 <= 1 / 2)%R -> (b <= a)%R).
Proof.
  apply (@gamma_correction_brightens 1 1 3 [[[Fin (1 / 4); Fin 0; Fin 1]]] (1 / 2) 0 0 0);
    try lia.
  - lra.
  - split; [reflexivity | repeat constructor].
  - repeat constructor; simpl; lra.
Defined.

Lemma np_power_order (a a' g : R) :
  (0 < g)%R -> (0 <= a <= a')%R ->
  exists b b', np_power (Fin a) g = Fin b /\ np_power (Fin a') g = Fin b' /\
               (b <= b')%R.
Proof.
  intros Hg [Ha Hle].
  destruct (Rle_lt_or_eq_dec _ _ Ha) as [Hpos | <-].
  - exists (Rpower a g), (Rpower a' g).
    rewrite !np_power_positive by lra. repeat split.
    apply Rle_Rpower_l; lra.
  - rewrite (proj1 (np_power_zero_base g) Hg).
    destruct (Rle_lt_or_eq_dec _ _ Hle) as [Hpos' | <-].
    + exists 0%R, (Rpower a' g). rewrite np_power_positive by lra.
      repeat split. left. apply exp_pos.
    + exists 0%R, 0%R. rewrite (proj1 (np_power_zero_base g) Hg).
      repeat split. lra.
Qed.

(** X11: for [gamma > 0], [gamma_correction] keeps the order of the entries
    of an image without negative entries: where one entry is at most
    another before, it is at most the other after. *)
Theorem gamma_correction_order (H W C : nat) (image : list (list (list f64)))
    (gamma : R) (i j k i' j' k' : nat) (a a' : R) :
  (0 < gamma)%R -> has_shape3 H W C image ->
  i < H -> j < W -> k < C -> i' < H -> j' < W -> k' < C ->
  get3 (Fin 0) image i j k = Fin a -> get3 (Fin 0) image i' j' k' = Fin a' ->
  (0 <= a <= a')%R ->
  exists out b b',
    gamma_correction image gamma = Ok out /\
    get3 (Fin 0) out i j k = Fin b /\
    get3 (Fin 0) out i' j' k' = Fin b' /\
    (b <= b')%R.
Proof.
  intros Hg Hs Hi Hj Hk Hi' Hj' Hk' Ea Ea' Hle.
  destruct (np_power_order Hg Hle) as (b & b' & Eb & Eb' & Hb).
  exists (map3 (fun x => np_power x gamma) image), b, b'.
  split; [reflexivity|].
  rewrite (@get3_powers H W C image gamma i j k Hs Hi Hj Hk), Ea.
  rewrite (@get3_powers H W C image gamma i' j' k' Hs Hi' Hj' Hk'), Ea'.
  now repeat split.
Qed.

Lemma gamma_correction_order_witness :
  exists out b b',
    gamma_correction [[[Fin (1 / 4); Fin 0; Fin 3]]] (1 / 2) = Ok out /\
    get3 (Fin 0) out 0 0 0 = Fin b /\
    get3 (Fin 0) out 0 0 2 = Fin b' /\
    (b <= b')%R.
Proof.
  apply (@gamma_correction_order 1 1 3 [[[Fin (1 / 4); Fin 0; Fin 3]]] (1 / 2)
           0 0 0 0 0 2 (1 / 4) 3); try lia; try reflexivity.
  - lra.
  - split; [reflexivity | repeat constructor].
  - lra.
Defined.

(** ** The rescaling of the raw frame *)

Lemma fold_min_spec (l : list Z) (x : Z) :
  (fold_left Z.min l x <= x)%Z /\
  Forall (fun y => (fold_left Z.min l x <= y)%Z) l /\
  (fold_left Z.min l x = x \/ In (fold_left Z.min l x) l).
Proof.
  revert x. induction l as [|y l IH]; intros x; simpl.
  - repeat split; [lia | constructor | now left].
  - destruct (IH (Z.min x y)) as (H1 & H2 & H3). repeat split.
    + lia.
    + constructor; [lia | exact H2].
    + destruct H3 as [E | I]; [|right; right; exact I].
      destruct (Z.min_spec x y) as [[_ M] | [_ M]]; rewrite M in *;
        [left; exact E | right; left; symmetry; exact E].
Qed.

Lemma fold_max_spec (l : list Z) (x : Z) :
  (x <= fold_left Z.max l x)%Z /\
  Forall (fun y => (y <= fold_left Z.max l x)%Z) l /\
  (fold_left Z.max l x = x \/ In (fold_left Z.max l x) l).
Proof.
  revert x. induction l as [|y l IH]; intros x; simpl.
  - repeat split; [lia | constructor | now left].
  - destruct (IH (Z.max x y)) as (H1 & H2 & H3). repeat split.
    + lia.
    + constructor; [lia | exact H2].
    + destruct H3 as [E | I]; [|right; right; exact I].
      destruct (Z.max_spec x y) as [[_ M] | [_ M]]; rewrite M in *;
        [right; left; symmetry; exact E | left; exact E].
Qed.

Lemma np_min_spec (raw : list (list Z)) (lo : Z) :
  np_min raw = Ok lo ->
  In lo (concat raw) /\ forall x, In x (concat raw) -> (lo <= x)%Z.
Proof.
  unfold np_min. destruct (concat raw) as [|x t]; [discriminate|].
  intros [= <-]. destruct (fold_min_spec t x) as (H1 & H2 & H3). split.
  - destruct H3 as [-> | I]; [now left | now right].
  - intros y [<- | Iy]; [exact H1|]. rewrite Forall_forall in H2. now apply H2.
Qed.

Lemma np_max_spec (raw : list (list Z)) (hi : Z) :
  np_max raw = Ok hi ->
  In hi (concat raw) /\ forall x, In x (concat raw) -> (x <= hi)%Z.
Proof.
  unfold np_max. destruct (concat raw) as [|x t]; [discriminate|].
  intros [= <-]. destruct (fold_max_spec t x) as (H1 & H2 & H3). split.
  - destruct H3 as [-> | I]; [now left | now right].
  - intros y [<- | Iy]; [exact H1|]. rewrite Forall_forall in H2. now apply H2.
Qed.

Lemma in_frame (A : Type) (raw : list (list A)) (row : list A) (x : A) :
  In row raw -> In x row -> In x (concat raw).
Proof. intros Hr Hx. apply in_concat. now exists row. Qed.

Lemma all2_concat (A : Type) (P : A -> Prop) (raw : list (list A)) :
  all2 P raw -> forall x, In x (concat raw) -> P x.
Proof.
  intros Ha x Hx. apply in_concat in Hx. destruct Hx as (row & Hr & Hx).
  unfold all2 in Ha. rewrite Forall_forall in Ha. specialize (Ha _ Hr).
  rewrite Forall_forall in Ha. now apply Ha.
Qed.

Lemma map2_shape (A B : Type) (f : A -> B) (h w : nat) (a : list (list A)) :
  has_shape h w a -> has_shape h w (map (map f) a).
Proof.
  intros [Hh Hw]. split; [now rewrite length_map|].
  apply Forall_map. eapply Forall_impl; [|exact Hw].
  intros row Hr. cbv beta. now rewrite length_map.
Qed.

Lemma unit_quotient (n d : Z) :
  (0 <= n <= d)%Z -> (0 < d)%Z -> (0 <= IZR n / IZR d <= 1)%R.
Proof.
  intros Hn Hd.
  assert (Hd' : (0 < IZR d)%R) by now apply IZR_lt.
  assert (Hn0 : (0 <= IZR n)%R) by (apply IZR_le; lia).
  assert (Hnd : (IZR n <= IZR d)%R) by (apply IZR_le; lia).
  split.
  - apply Rmult_le_pos; [exact Hn0 | left; now apply Rinv_0_lt_compat].
  - apply Rmult_le_reg_r with (IZR d); [exact Hd'|].
    unfold Rdiv. rewrite Rmult_assoc, Rinv_l by lra. lra.
Qed.

Lemma get2_in_frame (h w : nat) (raw : list (list Z)) (i j : nat) :
  has_shape h w raw -> i < h -> j < w -> In (get2 0%Z raw i j) (concat raw).
Proof.
  intros Hs Hi Hj. unfold get2.
  apply in_frame with (nth i raw []).
  - apply nth_In. destruct Hs as [-> _]. exact Hi.
  - apply nth_In. rewrite (row_length Hs Hi). exact Hj.
Qed.

Lemma rescaled_sample (lo hi x : Z) :
  (0 <= lo <= x)%Z -> (x <= hi < 65536)%Z -> (lo < hi)%Z ->
  fdiv (of_int (u16 (x - lo))) (of_int (u16 (hi - lo))) =
  Fin (IZR (x - lo) / IZR (hi - lo)).
Proof.
  intros Hlo Hhi Hlt. unfold u16, of_int.
  rewrite !Z.mod_small by lia.
  apply fdiv_finite. apply not_0_IZR. lia.
Qed.

(** The rescaled array of a frame whose minimum is below its maximum. *)
Lemma rescale_values (H W : nat) (raw : list (list Z)) (lo hi : Z) :
  has_shape H W raw -> all2 (fun x => (0 <= x < 65536)%Z) raw ->
  np_min raw = Ok lo -> np_max raw = Ok hi -> (lo < hi)%Z ->
  exists out,
    rescale raw = Ok out /\
    has_shape H W out /\
    all2 (within 0 1) out /\
    (forall i j, i < H -> j < W ->
       get2 (Fin 0) out i j = Fin (IZR (get2 0%Z raw i j - lo) / IZR (hi - lo))) /\
    (forall i j, i < H -> j < W -> get2 0%Z raw i j = lo ->
       get2 (Fin 0) out i j = Fin 0) /\
    (forall i j, i < H -> j < W -> get2 0%Z raw i j = hi ->
       get2 (Fin 0) out i j = Fin 1).
Proof.
  intros Hs Hr Emin Emax Hlt.
  destruct (np_min_spec _ Emin) as [Ilo Hlo].
  destruct (np_max_spec _ Emax) as [Ihi Hhi].
  assert (Hrange : forall x, In x (concat raw) -> (0 <= x < 65536)%Z)
    by (intros x Hx; exact (all2_concat Hr x Hx)).
  assert (Hf : forall x, In x (concat raw) ->
             fdiv (of_int (u16 (x - lo))) (of_int (u16 (hi - lo))) =
             Fin (IZR (x - lo) / IZR (hi - lo))).
  { intros x Hx. pose proof (Hrange _ Hx). pose proof (Hrange _ Ilo).
    pose proof (Hrange _ Ihi). pose proof (Hlo _ Hx). pose proof (Hhi _ Hx).
    apply rescaled_sample; lia. }
  assert (Hget : forall i j, i < H -> j < W ->
            get2 (Fin 0)
              (map (map (fun x => fdiv (of_int (u16 (x - lo))) (of_int (u16 (hi - lo)))))
                 raw) i j =
            Fin (IZR (get2 0%Z raw i j - lo) / IZR (hi - lo))).
  { intros i j Hi Hj.
    rewrite (@get2_map2 _ _ _ 0%Z (Fin 0) H W raw i j Hs Hi Hj).
    apply Hf. now apply (get2_in_frame Hs). }
  eexists. split; [unfold rescale; rewrite Emin, Emax; reflexivity|].
  split; [now apply map2_shape|]. split; [|split; [exact Hget|split]].
  - unfold all2. apply Forall_map, Forall_forall. intros row Hrow.
    apply Forall_map, Forall_forall. intros x Hx.
    pose proof (@in_frame _ raw row x Hrow Hx) as Ix.
    rewrite (Hf _ Ix). simpl.
    pose proof (Hlo _ Ix). pose proof (Hhi _ Ix).
    apply unit_quotient; lia.
  - intros i j Hi Hj E. rewrite (Hget i j Hi Hj), E, Z.sub_diag.
    f_equal. unfold Rdiv. apply Rmult_0_l.
  - intros i j Hi Hj E. rewrite (Hget i j Hi Hj), E.
    f_equal. apply Rdiv_diag. apply not_0_IZR. lia.
Qed.

(** X12: on a raw frame of unsigned 16-bit samples whose minimum is below
    its maximum, the rescaling returns an array of the same shape, with
    every entry [(x - min) / (max - min)], a number in [0, 1]: the minimum
    is sent to 0 and the maximum to 1, and the subtractions never wrap. *)
Theorem rescale_range (H W : nat) (raw : list (list Z)) (lo hi : Z) :
  has_shape H W raw -> all2 (fun x => (0 <= x < 65536)%Z) raw ->
  np_min raw = Ok lo -> np_max raw = Ok hi -> (lo < hi)%Z ->
  exists out,
    rescale raw = Ok out /\
    has_shape H W out /\
    all2 (within 0 1) out /\
    (forall i j, i < H -> j < W ->
       get2 (Fin 0) out i j = Fin (IZR (get2 0%Z raw i j - lo) / IZR (hi - lo))) /\
    (forall i j, i < H -> j < W -> get2 0%Z raw i j = lo ->
       get2 (Fin 0) out i j = Fin 0) /\
    (forall i j, i < H -> j < W -> get2 0%Z raw i j = hi ->
       get2 (Fin 0) out i j = Fin 1).
Proof. apply rescale_values. Qed.

Lemma rescale_range_witness :
  exists out,
    rescale [[10; 20]; [40; 30]]%Z = Ok out /\
    has_shape 2 2 out /\
    all2 (within 0 1) out /\
    get2 (Fin 0) out 0 0 = Fin 0 /\
    get2 (Fin 0) out 1 0 = Fin 1.
Proof.
  destruct (@rescale_range 2 2 [[10; 20]; [40; 30]]%Z 10 40)
    as (out & E & Hs & Hw & _ & H0 & H1).
  - split; [reflexivity | repeat constructor].
  - repeat constructor; lia.
  - reflexivity.
  - reflexivity.
  - lia.
  - exists out. split; [exact E|]. split; [exact Hs|]. split; [exact Hw|]. split.
    + apply H0; [lia | lia | reflexivity].
    + apply H1; [lia | lia | reflexivity].
Defined.

Lemma np_min_constant (H W : nat) (raw : list (list Z)) (v : Z) :
  has_shape H W raw -> 0 < H -> 0 < W -> all2 (fun x => x = v) raw ->
  np_min raw = Ok v /\ np_max raw = Ok v.
Proof.
  intros Hs HH HW Hc.
  assert (I : In (get2 0%Z raw 0 0) (concat raw)) by now apply (get2_in_frame Hs).
  assert (Hall : forall x, In x (concat raw) -> x = v)
    by (intros x Hx; exact (all2_concat Hc x Hx)).
  split.
  - unfold np_min in *. destruct (concat raw) as [|x t] eqn:E; [contradiction|].
    f_equal. destruct (fold_min_spec t x) as (_ & _ & [F | F]).
    + rewrite F. apply Hall. now left.
    + apply Hall. now right.
  - unfold np_max in *. destruct (concat raw) as [|x t] eqn:E; [contradiction|].
    f_equal. destruct (fold_max_spec t x) as (_ & _ & [F | F]).
    + rewrite F. apply Hall. now left.
    + apply Hall. now right.
Qed.

Lemma zero_over_zero : fdiv (of_int (u16 0)) (of_int (u16 0)) = NaN.
Proof.
  change (u16 0) with 0%Z. unfold of_int, fdiv.
  destruct (Req_dec_T 0 0) as [_|N]; [apply signed_inf_zero | now elim N].
Qed.

(** On a non-empty raw frame whose samples are all equal the rescaling
    raises nothing and returns an array of [nan] (0 / 0). *)
Lemma rescale_constant (H W : nat) (raw : list (list Z)) (v : Z) :
  has_shape H W raw -> 0 < H -> 0 < W -> all2 (fun x => x = v) raw ->
  exists out,
    rescale raw = Ok out /\
    has_shape H W out /\
    all2 (fun y => y = NaN) out.
Proof.
  intros Hs HH HW Hc.
  destruct (np_min_constant Hs HH HW Hc) as [Emin Emax].
  eexists. split; [unfold rescale; rewrite Emin, Emax; reflexivity|].
  split; [now apply map2_shape|].
  unfold all2 in *. apply Forall_map. eapply Forall_impl; [|exact Hc].
  intros row Hrow. apply Forall_map. eapply Forall_impl; [|exact Hrow].
  intros x ->. cbv beta. rewrite Z.sub_diag. apply zero_over_zero.
Qed.

(** ** [decode] from the raw frame *)

Lemma reflect_lt (n : nat) (z : Z) : 0 < n -> reflect n z < n.
Proof.
  intros Hn. unfold reflect.
  pose proof (Z.mod_pos_bound z (2 * Z.of_nat n) ltac:(lia)) as B.
  destruct (Z.ltb_spec (z mod (2 * Z.of_nat n)) (Z.of_nat n)); lia.
Qed.

Lemma all2_get2 (A : Type) (P : A -> Prop) (d : A) (h w : nat)
    (a : list (list A)) (i j : nat) :
  has_shape h w a -> all2 P a -> i < h -> j < w -> P (get2 d a i j).
Proof.
  intros Hs Ha Hi Hj. unfold get2, all2 in *.
  rewrite Forall_forall in Ha.
  assert (Irow : In (nth i a []) a) by (apply nth_In; destruct Hs; lia).
  specialize (Ha _ Irow). rewrite Forall_forall in Ha.
  apply Ha, nth_In. rewrite (row_length Hs Hi). exact Hj.
Qed.

Lemma fmul_nan_r (x : f64) : fmul x NaN = NaN.
Proof. now destruct x. Qed.

(** A frame of [nan] gives [nan] in every channel the interpolation
    produces. *)
Lemma interpolated_nan (H W : nat) (image : list (list f64)) (i j k : nat) :
  has_shape H W image -> all2 (fun y => y = NaN) image ->
  i < H -> j < W ->
  get2 (Fin 0) (interpolated H W image k) i j = NaN.
Proof.
  intros Hs Hn Hi Hj.
  assert (Hm : forall mask x y, x < H -> y < W ->
            get2 (Fin 0) (masked H W image mask) x y = NaN).
  { intros mask x y Hx Hy. rewrite masked_at by assumption.
    now rewrite (@all2_get2 _ (fun y => y = NaN) (Fin 0) H W image x y Hs Hn Hx Hy). }
  assert (Hc : forall mask K, shape K = (3, 3) ->
            get2 (Fin 0) (convolve (masked H W image mask) K) i j = NaN).
  { intros mask K HK. unfold convolve.
    destruct (shape_cases (masked_shape H W image mask)) as [-> | [E0 _]]; [|lia].
    rewrite HK.
    rewrite get2_tabulate2 by assumption.
    cbn [seq flat_map map app].
    rewrite !Hm by (apply reflect_lt; lia).
    now rewrite !fmul_nan_r. }
  destruct k as [|[|k]]; simpl; now apply Hc.
Qed.

Lemma stacked_nan (H W : nat) (image : list (list f64)) :
  has_shape H W image -> all2 (fun y => y = NaN) image ->
  all3 (fun y => y = NaN) (stacked H W image).
Proof.
  intros Hs Hn. unfold all3, stacked, tabulate2, tabulate.
  apply Forall_map, Forall_forall. intros i Hi. apply in_seq in Hi.
  apply Forall_map, Forall_forall. intros j Hj. apply in_seq in Hj.
  repeat constructor; apply interpolated_nan; assumption || lia.
Qed.

Lemma balanced_nan (H W : nat) (image : list (list (list f64))) (reference : list f64) :
  has_shape3 H W 3 image -> all3 (fun y => y = NaN) image ->
  all3 (fun y => y = NaN) (balanced reference image).
Proof.
  intros [_ Hrows] Hn. unfold all3, balanced, map3 in *.
  rewrite map2_map2.
  apply Forall_map, Forall_forall. intros row Hrow.
  rewrite Forall_forall in Hrows, Hn.
  specialize (Hrows _ Hrow). specialize (Hn _ Hrow). destruct Hrows as [_ Hpx].
  apply Forall_map, Forall_forall. intros px Hin.
  rewrite Forall_forall in Hpx, Hn.
  specialize (Hpx _ Hin). specialize (Hn _ Hin). cbv beta in Hpx.
  destruct px as [|a [|b [|c [|? ?]]]]; try discriminate Hpx.
  inversion Hn as [|? ? Ha Hn1]; subst. inversion Hn1 as [|? ? Hb Hn2]; subst.
  inversion Hn2 as [|? ? Hc _]; subst.
  repeat constructor.
Qed.

Lemma np_power_nan (gamma : R) : gamma <> 0%R -> np_power NaN gamma = NaN.
Proof. intros Hg. unfold np_power. now destruct (Req_dec_T gamma 0). Qed.

(** X13: a non-empty raw frame of even sides whose samples are all equal is
    decoded without any error into an image of shape [H x W x 3] in which
    every entry is [nan], for every list of three gains and every
    [gamma <> 0]: the rescaling divides 0 by 0 and no stage removes the
    [nan]. *)
Theorem decode_raw_constant (H W : nat) (raw : list (list Z)) (v : Z)
    (g0 g1 g2 : f64) (gamma : R) :
  Nat.even H = true -> Nat.even W = true -> 0 < H -> 0 < W ->
  has_shape H W raw -> all2 (fun x => x = v) raw -> gamma <> 0%R ->
  exists rescaled out,
    rescale raw = Ok rescaled /\
    all2 (fun y => y = NaN) rescaled /\
    decode_raw raw (RefList [g0; g1; g2]) gamma = Ok out /\
    has_shape3 H W 3 out /\
    all3 (fun y => y = NaN) out.
Proof.
  intros HH HW H0 W0 Hs Hc Hg.
  destruct (rescale_constant Hs H0 W0 Hc) as (rescaled & Er & Hrs & Hrn).
  pose proof (stacked_shape H W rescaled) as Hs3.
  exists rescaled,
    (map3 (fun x => np_power x gamma) (balanced [g0; g1; g2] (stacked H W rescaled))).
  split; [exact Er|]. split; [exact Hrn|]. split; [|split].
  - unfold decode_raw. rewrite Er. unfold bind at 1. unfold decode.
    rewrite (demosaic_value HH HW Hrs). unfold bind at 1.
    rewrite (@white_balance_with H W _ (RefList [g0; g1; g2]) [g0; g1; g2]
               Hs3 eq_refl eq_refl).
    reflexivity.
  - now apply map3_shape, balanced_shape.
  - apply (@all3_map3 _ _ _ (fun y => y = NaN)).
    + intros x ->. now apply np_power_nan.
    + apply (balanced_nan _ Hs3). now apply stacked_nan.
Qed.

Lemma decode_raw_constant_witness :
  exists rescaled out,
    rescale [[7; 7]; [7; 7]]%Z = Ok rescaled /\
    all2 (fun y => y = NaN) rescaled /\
    decode_raw [[7; 7]; [7; 7]]%Z (RefList [Fin 1; Fin 1; Fin 1]) (1 / 2) = Ok out /\
    has_shape3 2 2 3 out /\
    all3 (fun y => y = NaN) out.
Proof.
  apply (@decode_raw_constant 2 2 [[7; 7]; [7; 7]]%Z 7%Z); try reflexivity; try lia.
  - split; [reflexivity | repeat constructor].
  - repeat constructor.
  - lra.
Defined.

(** On a non-empty raw frame the rescaling raises nothing and keeps the
    shape, whatever the samples. *)
Lemma rescale_shape (H W : nat) (raw : list (list Z)) :
  has_shape H W raw -> 0 < H -> 0 < W ->
  exists out, rescale raw = Ok out /\ has_shape H W out.
Proof.
  intros Hs HH HW.
  assert (I : In (get2 0%Z raw 0 0) (concat raw)) by now apply (get2_in_frame Hs).
  unfold rescale, np_min, np_max.
  destruct (concat raw) as [|x t]; [contradiction|].
  eexists. split; [reflexivity|]. now apply map2_shape.
Qed.

(** X14: with the default reference of [decode], the pixel (1200, 230), a
    non-empty raw frame of even sides with at most 1200 rows or at most 230
    columns makes [decode] raise IndexError, whatever its samples and
    whatever [gamma]: the rescaling and [demosaic] go through, and
    [white_balance] reads a pixel that is not there. *)
Theorem decode_default_reference (H W : nat) (raw : list (list Z)) (gamma : R) :
  Nat.even H = true -> Nat.even W = true -> 0 < H -> 0 < W ->
  has_shape H W raw ->
  H <= 1200 \/ W <= 230 ->
  decode_raw raw default_white_reference gamma = Raise IndexError.
Proof.
  intros HH HW H0 W0 Hs Hsmall.
  destruct (rescale_shape Hs H0 W0) as (rescaled & Er & Hrs).
  unfold decode_raw. rewrite Er. unfold bind at 1. unfold decode.
  rewrite (demosaic_value HH HW Hrs). unfold bind at 1.
  unfold white_balance, default_white_reference, reference_of.
  rewrite (@getitem3_outside H W 3 (stacked H W rescaled) 1200 230 0
             (stacked_shape H W rescaled)) by lia.
  reflexivity.
Qed.

Lemma decode_default_reference_witness :
  decode_raw [[10; 20]; [40; 30]]%Z default_white_reference (1 / 2) = Raise IndexError.
Proof.
  apply (@decode_default_reference 2 2);
    [reflexivity | reflexivity | lia | lia | | lia].
  split; [reflexivity | repeat constructor].
Defined.

Lemma within_finite (lo hi : R) (a : list (list f64)) :
  all2 (within lo hi) a -> all2 is_finite a.
Proof.
  unfold all2. intros Ha. eapply Forall_impl; [|exact Ha].
  intros row Hrow. eapply Forall_impl; [|exact Hrow].
  intros x Hx. now destruct x.
Qed.

(** X15: a raw frame of unsigned 16-bit samples with even sides whose
    minimum is below its maximum is decoded, for every three finite gains
    and every [gamma > 0], into an image of shape [H x W x 3] with every
    entry a number in [0, 1]. *)
Theorem decode_raw_within (H W : nat) (raw : list (list Z)) (lo hi : Z)
    (g0 g1 g2 gamma : R) :
  Nat.even H = true -> Nat.even W = true -> has_shape H W raw ->
  all2 (fun x => (0 <= x < 65536)%Z) raw ->
  np_min raw = Ok lo -> np_max raw = Ok hi -> (lo < hi)%Z ->
  (0 < gamma)%R ->
  exists out,
    decode_raw raw (RefList [Fin g0; Fin g1; Fin g2]) gamma = Ok out /\
    has_shape3 H W 3 out /\
    all3 (within 0 1) out.
Proof.
  intros HH HW Hs Hr Emin Emax Hlt Hg.
  destruct (rescale_values Hs Hr Emin Emax Hlt) as (rescaled & Er & Hrs & Hrw & _).
  destruct (@decode_within H W rescaled g0 g1 g2 gamma HH HW Hrs
              (within_finite Hrw) Hg) as (out & Eo & Ho).
  exists out. split; [|exact Ho].
  unfold decode_raw. rewrite Er. exact Eo.
Qed.

Lemma decode_raw_within_witness :
  exists out,
    decode_raw [[10; 20]; [40; 30]]%Z (RefList [Fin 2; Fin 1; Fin (1 / 2)]) (1 / 2) = Ok out /\
    has_shape3 2 2 3 out /\
    all3 (within 0 1) out.
Proof.
  apply (@decode_raw_within 2 2 [[10; 20]; [40; 30]]%Z 10 40); try reflexivity.
  - split; [reflexivity | repeat constructor].
  - repeat constructor; lia.
  - lra.
Defined.

(** ** [demosaic] at the corner of the array *)

Lemma reflect_corner (n a : nat) :
  2 <= n -> a <= 2 ->
  reflect n (Z.of_nat 0 + Z.of_nat (3 / 2) - Z.of_nat a) =
  match a with 0 => 1 | _ => 0 end.
Proof.
  intros Hn Ha. unfold reflect. change (3 / 2) with 1.
  set (p := (2 * Z.of_nat n)%Z).
  assert (Hp : (4 <= p)%Z) by (unfold p; lia).
  destruct a as [|[|[|a]]]; [| | |lia]; cbn [Z.of_nat Z.add Z.sub Z.opp Pos.of_succ_nat
    Pos.succ Z.pos_sub Z.succ_double Z.pred_double Z.double Pos.pred_double].
  - rewrite Z.mod_small by lia. destruct (Z.ltb_spec 1 (Z.of_nat n)); lia.
  - rewrite Z.mod_small by lia. destruct (Z.ltb_spec 0 (Z.of_nat n)); lia.
  - assert (E : ((-1) mod p = p - 1)%Z)
      by (symmetry; apply (Z.mod_unique (-1) p (-1)); lia).
    rewrite E. destruct (Z.ltb_spec (p - 1) (Z.of_nat n)); unfold p in *; lia.
Qed.

Lemma corner_channel (H W : nat) (image : list (list f64)) (unit : list (list Z))
    (K : list (list f64)) :
  Nat.even H = true -> Nat.even W = true ->
  has_shape H W image -> all2 is_finite image ->
  has_shape 2 2 unit -> shape K = (3, 3) -> 2 <= H -> 2 <= W ->
  get2 (Fin 0) (convolve (masked H W image (repmat unit (H / 2) (W / 2))) K) 0 0 =
  fsum (flat_map (fun a =>
          map (fun b =>
                 let x := match a with 0 => 1 | _ => 0 end in
                 let y := match b with 0 => 1 | _ => 0 end in
                 fmul (get2 (Fin 0) K a b)
                      (Fin (sample image x y * IZR (get2 0%Z unit x y))))
              (seq 0 3))
          (seq 0 3)).
Proof.
  intros HH HW Hs Hf Hu HK H2 W2. unfold convolve.
  destruct (shape_cases (masked_shape H W image (repmat unit (H / 2) (W / 2))))
    as [-> | [E0 _]]; [|lia].
  rewrite HK, get2_tabulate2 by lia.
  cbn [seq flat_map map app].
  rewrite !reflect_corner by lia. cbv zeta.
  rewrite !masked_at by lia.
  rewrite !(get2_sample _ _ Hf).
  rewrite !(@mask_at unit H W _ _ Hu HH HW) by lia.
  reflexivity.
Qed.

(** X16: at the top-left corner of a sensor array of numbers with even
    sides, the reflected border counts the red sample of the corner four
    times and leaves the green and blue channels with fewer samples: the
    pixel [demosaic] returns there is 9/4 of the corner sample in red, a
    quarter of the sum of the two adjacent samples in green, and a quarter
    of the diagonal sample in blue. *)
Theorem demosaic_corner (H W : nat) (image : list (list f64)) :
  Nat.even H = true -> Nat.even W = true -> 2 <= H -> 2 <= W ->
  has_shape H W image -> all2 is_finite image ->
  exists out,
    demosaic image = Ok out /\
    get3 (Fin 0) out 0 0 0 = Fin (9 / 4 * sample image 0 0) /\
    get3 (Fin 0) out 0 0 1 = Fin ((sample image 0 1 + sample image 1 0) / 4) /\
    get3 (Fin 0) out 0 0 2 = Fin (sample image 1 1 / 4).
Proof.
  intros HH HW H2 W2 Hs Hf. exists (stacked H W image).
  split; [now apply demosaic_value|].
  destruct filter_shapes as (Hr & Hg & Hb).
  rewrite !get3_stacked by lia.
  unfold interpolated, red_mask, green_mask, blue_mask.
  rewrite red_blue_interpolation_values, green_interpolation_values.
  rewrite !corner_channel by first [assumption | reflexivity | lia].
  cbn [seq flat_map map app]. cbv zeta.
  unfold red_filter, green_filter, blue_filter.
  cbn [get2 nth fsum fold_left fadd fmul].
  repeat split; f_equal; lra.
Qed.

Lemma demosaic_corner_witness :
  exists out,
    demosaic sensor4 = Ok out /\
    get3 (Fin 0) out 0 0 0 = Fin (9 / 4 * sample sensor4 0 0) /\
    get3 (Fin 0) out 0 0 1 = Fin ((sample sensor4 0 1 + sample sensor4 1 0) / 4) /\
    get3 (Fin 0) out 0 0 2 = Fin (sample sensor4 1 1 / 4).
Proof.
  apply (@demosaic_corner 4 4 sensor4);
    first [reflexivity | lia | apply sensor4_shape | idtac].
  repeat constructor.
Defined.

(** ** The gamma argument of the command line *)
Module CliFacts.
Import Ascii String Cli.

Lemma split_free (sep : ascii) (s : string) :
  free sep s = true -> split sep s = [s].
Proof.
  induction s as [|c rest IH]; intros Hfree.
  - reflexivity.
  - cbn [free] in Hfree. apply andb_prop in Hfree as [Hc Hrest].
    apply negb_true_iff in Hc.
    cbn [split]. rewrite Hc, (IH Hrest). reflexivity.
Qed.

Lemma split_app (sep : ascii) (a b : string) :
  free sep a = true ->
  split sep (append a (String sep b)) = a :: split sep b.
Proof.
  induction a as [|c rest IH]; intros Hfree.
  - cbn [append split]. rewrite Ascii.eqb_refl. reflexivity.
  - cbn [free] in Hfree. apply andb_prop in Hfree as [Hc Hrest].
    apply negb_true_iff in Hc.
    cbn [append split]. rewrite Hc, (IH Hrest). reflexivity.
Qed.

Lemma parse_gamma_parts (float : string -> option f64) (a b : string)
    (rest : list string) (text : string) :
  split "/" text = a :: b :: rest ->
  parse_gamma float text =
    py_bind (py_float float a) (fun x =>
    py_bind (py_float float b) (fun y => py_div x y)).
Proof.
  intros Hsplit. unfold parse_gamma. rewrite Hsplit. reflexivity.
Qed.

(** X17: a gamma argument without a slash, such as a plain decimal number,
    never gives a gamma: when [float] accepts the text, [gamma[1]] raises
    IndexError, and when it does not, [float(gamma[0])] raises ValueError
    first. *)
Theorem parse_gamma_no_slash (float : string -> option f64) (text : string) :
  free "/" text = true ->
  parse_gamma float text =
    match float text with
    | Some _ => Throw (Exn IndexError)
    | None => Throw (Exn ValueError)
    end.
Proof.
  intros Hfree. unfold parse_gamma. rewrite (@split_free _ _ Hfree).
  cbn [item nth_error py_bind]. unfold py_float.
  destruct (float text); reflexivity.
Qed.

Lemma parse_gamma_no_slash_witness :
  free "/" "2" = true /\
  parse_gamma (fun s => if String.eqb s "2" then Some (Fin 2) else None) "2"
    = Throw (Exn IndexError).
Proof.
  split; [reflexivity|].
  exact (@parse_gamma_no_slash
           (fun s => if String.eqb s "2" then Some (Fin 2) else None) "2"
           eq_refl).
Defined.

(** X18: only the first two parts of the gamma argument are read: whatever
    follows a second slash is ignored, without an error. *)
Theorem parse_gamma_extra_parts (float : string -> option f64)
    (a b rest : string) :
  free "/" a = true -> free "/" b = true ->
  parse_gamma float (append a (String "/" (append b (String "/" rest)))) =
  parse_gamma float (append a (String "/" b)).
Proof.
  intros Ha Hb.
  rewrite (@parse_gamma_parts float a b (split "/" rest)).
  - rewrite (@parse_gamma_parts float a b []); [reflexivity|].
    rewrite (@split_app _ _ _ Ha), (@split_free _ _ Hb). reflexivity.
  - rewrite (@split_app _ _ _ Ha), (@split_app _ _ _ Hb). reflexivity.
Qed.

Lemma parse_gamma_extra_parts_witness :
  parse_gamma (fun s => if String.eqb s "1" then Some (Fin 1) else None) "1/2/3"
  = parse_gamma (fun s => if String.eqb s "1" then Some (Fin 1) else None) "1/2".
Proof.
  exact (@parse_gamma_extra_parts
           (fun s => if String.eqb s "1" then Some (Fin 1) else None)
           "1" "2" "3" eq_refl eq_refl).
Defined.

(** X19: a gamma argument whose denominator [float] reads as zero raises
    ZeroDivisionError, whatever the numerator: the division is that of Python
    floats, not numpy's, so no infinite or undefined gamma comes out of it. *)
Theorem parse_gamma_zero_denominator (float : string -> option f64)
    (a b : string) (x : f64) :
  free "/" a = true -> free "/" b = true ->
  float a = Some x -> float b = Some (Fin 0) ->
  parse_gamma float (append a (String "/" b)) = Throw ZeroDivisionError.
Proof.
  intros Ha Hb Hx Hy.
  rewrite (@parse_gamma_parts float a b []).
  - unfold py_float. rewrite Hx, Hy. cbn [py_bind]. unfold py_div.
    destruct (Req_dec_T 0 0) as [_|Hne]; [reflexivity|].
    exfalso. apply Hne. reflexivity.
  - rewrite (@split_app _ _ _ Ha), (@split_free _ _ Hb). reflexivity.
Qed.

Lemma parse_gamma_zero_denominator_witness :
  parse_gamma
    (fun s => if String.eqb s "1" then Some (Fin 1)
              else if String.eqb s "0" then Some (Fin 0) else None)
    "1/0"
  = Throw ZeroDivisionError.
Proof.
  exact (@parse_gamma_zero_denominator
           (fun s => if String.eqb s "1" then Some (Fin 1)
                     else if String.eqb s "0" then Some (Fin 0) else None)
           "1" "0" (Fin 1) eq_refl eq_refl eq_refl eq_refl).
Defined.

(** X20: a gamma argument [numerator/denominator] whose two parts [float]
    reads as numbers, the second not zero, gives their quotient. *)
Theorem parse_gamma_quotient (float : string -> option f64)
    (a b : string) (x y : R) :
  free "/" a = true -> free "/" b = true ->
  float a = Some (Fin x) -> float b = Some (Fin y) -> y <> 0%R ->
  parse_gamma float (append a (String "/" b)) = Return (Fin (x / y)).
Proof.
  intros Ha Hb Hx Hy Hne.
  rewrite (@parse_gamma_parts float a b []).
  - unfold py_float. rewrite Hx, Hy. cbn [py_bind]. unfold py_div.
    destruct (Req_dec_T y 0) as [Hz|_]; [contradiction|].
    rewrite (@fdiv_finite x y Hne). reflexivity.
  - rewrite (@split_app _ _ _ Ha), (@split_free _ _ Hb). reflexivity.
Qed.

Lemma parse_gamma_quotient_witness :
  parse_gamma
    (fun s => if String.eqb s "1" then Some (Fin 1)
              else if String.eqb s "2" then Some (Fin 2) else None)
    "1/2"
  = Return (Fin (1 / 2)).
Proof.
  apply (@parse_gamma_quotient
           (fun s => if String.eqb s "1" then Some (Fin 1)
                     else if String.eqb s "2" then Some (Fin 2) else None)
           "1" "2" 1%R 2%R); try reflexivity.
  lra.
Defined.

End CliFacts.
